(** * The ACTGAN conditional-vector sampler (data_sampler.py)

    A shallow embedding of [gretel_synthetics/actgan/data_sampler.py] and the
    properties of its constructor and sampling operations.

    Modelling conventions.
    - NumPy arrays are lists; a 2-D array carries its column count
      ([shape1]) next to its rows, so that an array with zero rows still has
      a width, as [data.shape[1]] has.
    - Array entries that come from the training matrix are rationals [Q]:
      finite floating-point numbers with rounding idealised away.  Values
      computed by [np.log] and by the division that normalises frequencies
      live in [fl], which adds the non-finite results of IEEE arithmetic
      (infinities and NaN); signed zeros are not distinguished.
    - [np.log] is a parameter [np_log] of the constructor.
    - Python exceptions are the [Raise] branch of [result]; [assert]
      statements are executed.
    - The random source is an explicit argument: integer draws are arbitrary
      naturals reduced into the requested range, uniform draws are rationals.
    - The [int32] arrays hold naturals: widths are assumed to fit 32 bits.
    - Sums and quotients in [fl] are exact.  A statement about the value of
      a sum or a quotient says that it is one of exact arithmetic, and is
      made where the summands are row counts; the statements about which
      index a draw returns use of the arithmetic only that adding zero does
      not change how a value compares with the draw. *)

From Stdlib Require Import QArith Lia String.
From stdpp Require Import base list.

Open Scope nat_scope.

(** ** Exceptions *)

Inductive exn := AssertionError | IndexError | ValueError.

Inductive result (A : Type) :=
| Ok (a : A)
| Raise (e : exn).
Arguments Ok {A} a.
Arguments Raise {A} e.

Definition bind {A B} (m : result A) (f : A -> result B) : result B :=
  match m with
  | Ok a => f a
  | Raise e => Raise e
  end.

Notation "x <- m ;; k" := (bind m (fun x => k))
  (at level 100, m at next level, right associativity).

Fixpoint mapM {A B} (f : A -> result B) (l : list A) : result (list B) :=
  match l with
  | [] => Ok []
  | x :: l' => y <- f x ;; ys <- mapM f l' ;; Ok (y :: ys)
  end.

Definition is_Ok {A} (m : result A) : Prop := exists a, m = Ok a.
Definition raises {A} (m : result A) : Prop := exists e, m = Raise e.

(** ** Floating-point values with non-finite results *)

Inductive fl :=
| Fin (q : Q)
| PInf
| NInf
| NaN.

Definition fl_add (x y : fl) : fl :=
  match x, y with
  | NaN, _ | _, NaN => NaN
  | Fin a, Fin b => Fin (a + b)
  | PInf, NInf | NInf, PInf => NaN
  | PInf, _ | _, PInf => PInf
  | NInf, _ | _, NInf => NInf
  end.

Definition Qltb (a b : Q) : bool := negb (Qle_bool b a).

(** IEEE division; [0/0] and [inf/inf] are NaN, [x/0] is an infinity. *)
Definition fl_div (x y : fl) : fl :=
  match x, y with
  | NaN, _ | _, NaN => NaN
  | Fin a, Fin b =>
      if Qeq_bool b 0 then
        if Qeq_bool a 0 then NaN else if Qltb 0 a then PInf else NInf
      else Fin (a / b)
  | Fin _, _ => Fin 0
  | _, PInf | _, NInf => NaN
  | PInf, Fin b => if Qltb b 0 then NInf else PInf
  | NInf, Fin b => if Qltb b 0 then PInf else NInf
  end.

(** [x > r] for a finite [r]; false on NaN. *)
Definition fl_gtb (x : fl) (r : Q) : bool :=
  match x with
  | Fin a => Qltb r a
  | PInf => true
  | NInf | NaN => false
  end.

Definition fl_sum (l : list fl) : fl := foldr fl_add (Fin 0) l.

Definition Qsum (l : list Q) : Q := foldr Qplus 0%Q l.

(** Equality of [fl] values up to the representation of rationals. *)
Definition fl_eq (x y : fl) : Prop :=
  match x, y with
  | Fin a, Fin b => (a == b)%Q
  | PInf, PInf | NInf, NInf => True
  | _, _ => False
  end.

Definition fl_nonneg (x : fl) : Prop :=
  match x with
  | Fin a => (0 <= a)%Q
  | PInf => True
  | NInf | NaN => False
  end.

(** ** Arrays *)

Record ndarray2 (A : Type) := mk_ndarray2 { shape1 : nat; rows : list (list A) }.
Arguments mk_ndarray2 {A} shape1 rows.
Arguments shape1 {A} n.
Arguments rows {A} n.

(** [np.zeros((n, m))] *)
Definition np_zeros2 {A} (zero : A) (n m : nat) : ndarray2 A :=
  mk_ndarray2 m (replicate n (replicate m zero)).

(** [a[i]] on a list or 1-D array *)
Definition getitem {A} (a : list A) (i : nat) : result A :=
  match a !! i with
  | Some x => Ok x
  | None => Raise IndexError
  end.

(** [a[i] = v] *)
Definition setitem {A} (a : list A) (i : nat) (v : A) : result (list A) :=
  if i <? length a then Ok (<[i := v]> a) else Raise IndexError.

(** [data[:, c]] *)
Definition getcol (data : ndarray2 Q) (c : nat) : result (list Q) :=
  if c <? shape1 data then Ok (map (fun r => nth c r 0%Q) (rows data))
  else Raise IndexError.

(** [np.nonzero(v)[0]] *)
Fixpoint nonzero_from (i : nat) (v : list Q) : list nat :=
  match v with
  | [] => []
  | x :: v' =>
      if Qeq_bool x 0 then nonzero_from (S i) v' else i :: nonzero_from (S i) v'
  end.

Definition np_nonzero (v : list Q) : list nat := nonzero_from 0 v.

(** [np.sum(data[:, st:ed], axis=0)]; the slice is clipped to the array. *)
Definition col_sums (data : ndarray2 Q) (st ed : nat) : list Q :=
  map (fun c => Qsum (map (fun r => nth c r 0%Q) (rows data)))
      (seq st (Nat.min ed (shape1 data) - st)).

(** [row[st:ed]] *)
Definition slice {A} (row : list A) (st ed : nat) : list A :=
  take (ed - st) (drop st row).

(** [m[i, :d] = v]; a length-one [v] is broadcast, any other length
    mismatch is an error. *)
Definition setrow_prefix {A} (m : ndarray2 A) (i d : nat) (v : list A)
  : result (ndarray2 A) :=
  match rows m !! i with
  | None => Raise IndexError
  | Some row =>
      let t := Nat.min d (shape1 m) in
      if length v =? t then
        Ok (mk_ndarray2 (shape1 m) (<[i := v ++ drop t row]> (rows m)))
      else
        match v with
        | [x] => Ok (mk_ndarray2 (shape1 m)
                       (<[i := replicate t x ++ drop t row]> (rows m)))
        | _ => Raise ValueError
        end
  end.

(** [np.argmax]: the first index holding the maximum. *)
Fixpoint argmax_from {A} (gt : A -> A -> bool) (best_i : nat) (best : A)
  (i : nat) (l : list A) : nat :=
  match l with
  | [] => best_i
  | x :: l' =>
      if gt x best then argmax_from gt i x (S i) l'
      else argmax_from gt best_i best (S i) l'
  end.

Definition argmax {A} (gt : A -> A -> bool) (l : list A) : result nat :=
  match l with
  | [] => Raise ValueError
  | x :: l' => Ok (argmax_from gt 0 x 1 l')
  end.

Definition bool_gt (x y : bool) : bool := x && negb y.
Definition Q_gt (x y : Q) : bool := Qltb y x.

(** [a.argmax(axis=1)] *)
Definition argmax_axis1 {A} (gt : A -> A -> bool) (a : ndarray2 A)
  : result (list nat) :=
  if shape1 a =? 0 then Raise ValueError else mapM (argmax gt) (rows a).

(** [np.cumsum] along a row *)
Fixpoint cumsum_from (acc : fl) (l : list fl) : list fl :=
  match l with
  | [] => []
  | x :: l' => let a := fl_add acc x in a :: cumsum_from a l'
  end.

Definition cumsum (l : list fl) : list fl :=
  match l with
  | [] => []
  | x :: l' => x :: cumsum_from x l'
  end.

(** [m[i, j] = v] *)
Definition setitem2 {A} (m : ndarray2 A) (i j : nat) (v : A)
  : result (ndarray2 A) :=
  row <- getitem (rows m) i ;;
  if j <? shape1 m then Ok (mk_ndarray2 (shape1 m) (<[i := <[j := v]> row]> (rows m)))
  else Raise IndexError.

(** [m[np.arange(len(js)), js] = v]: entry [js[i]] of row [i], for every
    row. *)
Definition setitem_fancy {A} (m : ndarray2 A) (js : list nat) (v : A)
  : result (ndarray2 A) :=
  rows' <- mapM (fun rj => if rj.2 <? shape1 m then Ok (<[rj.2 := v]> rj.1)
                           else Raise IndexError)
                (zip (rows m) js) ;;
  Ok (mk_ndarray2 (shape1 m) rows').

(** [m[:, j] = v] *)
Definition setcol {A} (m : ndarray2 A) (j : nat) (v : A) : result (ndarray2 A) :=
  if j <? shape1 m then Ok (mk_ndarray2 (shape1 m) (map (fun row => <[j := v]> row) (rows m)))
  else Raise IndexError.

(** ** The random source *)

(** [np.random.randint(low, high)] on the integer draw [k]. *)
Definition randint (low high k : nat) : result nat :=
  if low <? high then Ok (low + k mod (high - low)) else Raise ValueError.

(** [np.random.randint(high, size=n)]; no draw is made when [n = 0]. *)
Definition randint_size (high n : nat) (draw : nat -> nat) : result (list nat) :=
  mapM (fun i => randint 0 high (draw i)) (seq 0 n).

(** [np.random.choice(a)] on the integer draw [k]. *)
Definition random_choice {A} (a : list A) (k : nat) : result A :=
  match a with
  | [] => Raise ValueError
  | _ => getitem a (k mod length a)
  end.

(** [np.random.choice(np.arange(n), size)] *)
Definition random_choice_arange (n size : nat) (draw : nat -> nat)
  : result (list nat) :=
  mapM (fun i => random_choice (seq 0 n) (draw i)) (seq 0 size).

(** ** Layout metadata *)

Record SpanInfo := { dim : nat; activation_fn : string }.

Definition _is_discrete_column (span_info : list SpanInfo) : bool :=
  match span_info with
  | [s] => String.eqb (activation_fn s) "softmax"
  | _ => false
  end.

(** [span_info_list[0]], read only where the list has one element. *)
Definition span0 (span_info_list : list SpanInfo) : SpanInfo :=
  match span_info_list with
  | s :: _ => s
  | [] => {| dim := 0; activation_fn := EmptyString |}
  end.

Definition sum_dims (span_info_list : list SpanInfo) : nat :=
  sum_list (map dim span_info_list).

Record ColumnIdInfo := { discrete_column_id : nat; value_id : nat }.

(** ** The sampler *)

Record DataSampler := {
  _data : ndarray2 Q;
  _discrete_column_matrix_st : list nat;
  _rid_by_cat_cols : list (list (list nat));
  _discrete_column_cond_st : list nat;
  _discrete_column_n_category : list nat;
  _discrete_column_category_prob : ndarray2 fl;
  _n_discrete_columns : nat;
  _n_categories : nat
}.

(** *** Constructor, first loop: the row index *)

Fixpoint rid_by_cat_loop (data : ndarray2 Q) (st : nat) (js : list nat)
  (rid_by_cat : list (list nat)) : result (list (list nat)) :=
  match js with
  | [] => Ok rid_by_cat
  | j :: js' =>
      col <- getcol data (st + j) ;;
      rid_by_cat_loop data st js' (rid_by_cat ++ [np_nonzero col])
  end.

Fixpoint first_pass (data : ndarray2 Q) (output_info : list (list SpanInfo))
  (st : nat) (rid : list (list (list nat)))
  : result (nat * list (list (list nat))) :=
  match output_info with
  | [] => Ok (st, rid)
  | span_info_list :: rest =>
      if _is_discrete_column span_info_list then
        let span_info := span0 span_info_list in
        let ed := st + dim span_info in
        rid_by_cat <- rid_by_cat_loop data st (seq 0 (dim span_info)) [] ;;
        first_pass data rest ed (rid ++ [rid_by_cat])
      else first_pass data rest (st + sum_dims span_info_list) rid
  end.

(** *** Constructor, second loop: probabilities and offsets *)

Record pass2 := {
  p_st : nat;
  current_id : nat;
  current_cond_st : nat;
  p_cond_st : list nat;
  p_n_category : list nat;
  p_category_prob : ndarray2 fl
}.

Definition category_prob_of (np_log : Q -> fl) (log_frequency : bool)
  (freq : list Q) : list fl :=
  let category_freq :=
    if log_frequency then map (fun f => np_log (f + 1)%Q) freq
    else map Fin freq in
  map (fun x => fl_div x (fl_sum category_freq)) category_freq.

Definition second_step (np_log : Q -> fl) (data : ndarray2 Q)
  (log_frequency : bool) (s : pass2) (span_info_list : list SpanInfo)
  : result pass2 :=
  if _is_discrete_column span_info_list then
    let span_info := span0 span_info_list in
    let ed := p_st s + dim span_info in
    let category_prob :=
      category_prob_of np_log log_frequency (col_sums data (p_st s) ed) in
    prob <- setrow_prefix (p_category_prob s) (current_id s) (dim span_info)
              category_prob ;;
    cond_st <- setitem (p_cond_st s) (current_id s) (current_cond_st s) ;;
    n_cat <- setitem (p_n_category s) (current_id s) (dim span_info) ;;
    Ok {| p_st := ed;
          current_id := current_id s + 1;
          current_cond_st := current_cond_st s + dim span_info;
          p_cond_st := cond_st;
          p_n_category := n_cat;
          p_category_prob := prob |}
  else
    Ok {| p_st := p_st s + sum_dims span_info_list;
          current_id := current_id s;
          current_cond_st := current_cond_st s;
          p_cond_st := p_cond_st s;
          p_n_category := p_n_category s;
          p_category_prob := p_category_prob s |}.

Fixpoint second_pass (np_log : Q -> fl) (data : ndarray2 Q)
  (log_frequency : bool) (output_info : list (list SpanInfo)) (s : pass2)
  : result pass2 :=
  match output_info with
  | [] => Ok s
  | span_info_list :: rest =>
      s' <- second_step np_log data log_frequency s span_info_list ;;
      second_pass np_log data log_frequency rest s'
  end.

(** The dimensions of the discrete columns, in layout order. *)
Definition discrete_dims (output_info : list (list SpanInfo)) : list nat :=
  map (fun l => dim (span0 l)) (filter (fun l => _is_discrete_column l = true) output_info).

Definition __init__ (np_log : Q -> fl) (data : ndarray2 Q)
  (output_info : list (list SpanInfo)) (log_frequency : bool)
  : result DataSampler :=
  let n_discrete_columns := length (discrete_dims output_info) in
  let matrix_st := replicate n_discrete_columns 0 in
  walk <- first_pass data output_info 0 [] ;;
  let st := walk.1 in
  let rid := walk.2 in
  if negb (st =? shape1 data) then Raise AssertionError else
  let max_category := max_list (discrete_dims output_info) in
  let n_categories := sum_list (discrete_dims output_info) in
  s <- second_pass np_log data log_frequency output_info
         {| p_st := 0; current_id := 0; current_cond_st := 0;
            p_cond_st := replicate n_discrete_columns 0;
            p_n_category := replicate n_discrete_columns 0;
            p_category_prob := np_zeros2 (Fin 0) n_discrete_columns max_category |} ;;
  Ok {| _data := data;
        _discrete_column_matrix_st := matrix_st;
        _rid_by_cat_cols := rid;
        _discrete_column_cond_st := p_cond_st s;
        _discrete_column_n_category := p_n_category s;
        _discrete_column_category_prob := p_category_prob s;
        _n_discrete_columns := n_discrete_columns;
        _n_categories := n_categories |}.

(** *** Sampling operations *)

(** [u i] is the uniform draw of batch element [i]. *)
Definition _random_choice_prob_index (self : DataSampler)
  (discrete_column_id : list nat) (u : nat -> Q) : result (list nat) :=
  probs <- mapM (getitem (rows (_discrete_column_category_prob self)))
             discrete_column_id ;;
  let r := map u (seq 0 (length probs)) in
  let above :=
    zip_with (fun row ri => map (fun c => fl_gtb c ri) (cumsum row)) probs r in
  argmax_axis1 bool_gt
    (mk_ndarray2 (shape1 (_discrete_column_category_prob self)) above).

Definition sample_condvec (self : DataSampler) (batch : nat)
  (col_draw : nat -> nat) (u : nat -> Q)
  : result (option (ndarray2 Q * ndarray2 Q * list nat * list nat)) :=
  if _n_discrete_columns self =? 0 then Ok None else
  discrete_column_id <-
    random_choice_arange (_n_discrete_columns self) batch col_draw ;;
  let cond := np_zeros2 0%Q batch (_n_categories self) in
  let mask := np_zeros2 0%Q batch (_n_discrete_columns self) in
  mask <- setitem_fancy mask discrete_column_id 1%Q ;;
  category_id_in_col <- _random_choice_prob_index self discrete_column_id u ;;
  cond_st <- mapM (getitem (_discrete_column_cond_st self)) discrete_column_id ;;
  let category_id := zip_with Nat.add cond_st category_id_in_col in
  cond <- setitem_fancy cond category_id 1%Q ;;
  Ok (Some (cond, mask, discrete_column_id, category_id_in_col)).

Fixpoint original_condvec_loop (self : DataSampler)
  (row_draw col_draw : nat -> nat) (range : list nat) (cond : ndarray2 Q)
  : result (ndarray2 Q) :=
  match range with
  | [] => Ok cond
  | i :: range' =>
      row_idx <- randint 0 (length (rows (_data self))) (row_draw i) ;;
      col_idx <- randint 0 (_n_discrete_columns self) (col_draw i) ;;
      matrix_st <- getitem (_discrete_column_matrix_st self) col_idx ;;
      n_cat <- getitem (_discrete_column_n_category self) col_idx ;;
      let matrix_ed := matrix_st + n_cat in
      row <- getitem (rows (_data self)) row_idx ;;
      pick <- argmax Q_gt (slice row matrix_st matrix_ed) ;;
      cond_st <- getitem (_discrete_column_cond_st self) col_idx ;;
      cond' <- setitem2 cond i (pick + cond_st) 1%Q ;;
      original_condvec_loop self row_draw col_draw range' cond'
  end.

Definition sample_original_condvec (self : DataSampler) (batch : nat)
  (row_draw col_draw : nat -> nat) : result (option (ndarray2 Q)) :=
  if _n_discrete_columns self =? 0 then Ok None else
  let cond := np_zeros2 0%Q batch (_n_categories self) in
  cond <- original_condvec_loop self row_draw col_draw (seq 0 batch) cond ;;
  Ok (Some cond).

Fixpoint sample_data_loop (self : DataSampler) (draw : nat -> nat) (i : nat)
  (pairs : list (nat * nat)) (idx : list nat) : result (list nat) :=
  match pairs with
  | [] => Ok idx
  | (c, o) :: pairs' =>
      by_cat <- getitem (_rid_by_cat_cols self) c ;;
      rid <- getitem by_cat o ;;
      k <- random_choice rid (draw i) ;;
      sample_data_loop self draw (S i) pairs' (idx ++ [k])
  end.

Definition sample_data (self : DataSampler) (n : nat) (col : option (list nat))
  (opt : list nat) (draw : nat -> nat) : result (list (list Q)) :=
  match col with
  | None =>
      idx <- randint_size (length (rows (_data self))) n draw ;;
      mapM (getitem (rows (_data self))) idx
  | Some col =>
      idx <- sample_data_loop self draw 0 (zip col opt) [] ;;
      mapM (getitem (rows (_data self))) idx
  end.

Definition dim_cond_vec (self : DataSampler) : nat := _n_categories self.

Definition generate_cond_from_condition_column_info (self : DataSampler)
  (condition_info : ColumnIdInfo) (batch_size : nat) : result (ndarray2 Q) :=
  let vec := np_zeros2 0%Q batch_size (_n_categories self) in
  id_ <- getitem (_discrete_column_matrix_st self)
           (discrete_column_id condition_info) ;;
  let id_ := id_ + value_id condition_info in
  setcol vec id_ 1%Q.

(** ** The layout, read as the constructor walks it *)

(** Matrix start and width of every discrete column, walking the layout from
    matrix column [st]. *)
Fixpoint discrete_spans (output_info : list (list SpanInfo)) (st : nat)
  : list (nat * nat) :=
  match output_info with
  | [] => []
  | span_info_list :: rest =>
      if _is_discrete_column span_info_list then
        (st, dim (span0 span_info_list))
          :: discrete_spans rest (st + dim (span0 span_info_list))
      else discrete_spans rest (st + sum_dims span_info_list)
  end.

(** Sum of all span widths across all columns (left side of Invariant I1). *)
Definition total_width (output_info : list (list SpanInfo)) : nat :=
  sum_list (map sum_dims output_info).

(** Running offsets into the conditioning-vector space. *)
Fixpoint cond_starts (acc : nat) (dims : list nat) : list nat :=
  match dims with
  | [] => []
  | d :: dims' => acc :: cond_starts (acc + d) dims'
  end.

(** The row index of one discrete column whose block starts at [st]. *)
Definition rid_of (data : ndarray2 Q) (span : nat * nat) : list (list nat) :=
  map (fun j => np_nonzero (map (fun r => nth (span.1 + j) r 0%Q) (rows data)))
      (seq 0 span.2).

(** The stored probability row of one discrete column. *)
Definition prob_row_of (np_log : Q -> fl) (data : ndarray2 Q)
  (log_frequency : bool) (max_category : nat) (span : nat * nat) : list fl :=
  category_prob_of np_log log_frequency
    (col_sums data span.1 (span.1 + span.2))
  ++ replicate (max_category - span.2) (Fin 0).

(** Every row of the matrix has [shape1] entries, as every NumPy array has. *)
Definition rectangular {A} (m : ndarray2 A) : Prop :=
  Forall (fun row => length row = shape1 m) (rows m).

(** *** The constructed sampler in closed form

    What the two loops of the constructor leave in each field, written as
    maps over the discrete spans of the layout; [init_Ok] proves that the
    constructor returns exactly this record. *)

Definition sampler_of (np_log : Q -> fl) (data : ndarray2 Q)
  (output_info : list (list SpanInfo)) (log_frequency : bool) : DataSampler :=
  let spans := discrete_spans output_info 0 in
  let dims := discrete_dims output_info in
  {| _data := data;
     _discrete_column_matrix_st := replicate (length dims) 0;
     _rid_by_cat_cols := map (rid_of data) spans;
     _discrete_column_cond_st := cond_starts 0 dims;
     _discrete_column_n_category := dims;
     _discrete_column_category_prob :=
       mk_ndarray2 (max_list dims)
         (map (prob_row_of np_log data log_frequency (max_list dims)) spans);
     _n_discrete_columns := length dims;
     _n_categories := sum_list dims |}.

(** ** Vocabulary of the properties *)

(** A row with a one at [pos] and zeros everywhere else. *)
Definition one_hot_at (width pos : nat) (row : list Q) : Prop :=
  length row = width /\ pos < width /\
  forall j, j < width -> row !! j = Some (if j =? pos then 1%Q else 0%Q).

(** *** Row sets and requests *)

(** [self._rid_by_cat_cols[c][o]], where both indices are in range. *)
Definition rid_lookup (self : DataSampler) (c o : nat) : option (list nat) :=
  match _rid_by_cat_cols self !! c with
  | Some by_cat => by_cat !! o
  | None => None
  end.

(** The request [(c, o)] can be served: its row set exists and is not empty. *)
Definition servable (self : DataSampler) (co : nat * nat) : Prop :=
  exists rid, rid_lookup self co.1 co.2 = Some rid /\ rid <> [].

(** [row] answers the request for category [o] of discrete column [c]: it is
    the training row of an index stored in that pair's row set, its value in
    the column's own block is nonzero at [o], and decoding the block, when
    the block is one-hot, gives [o]. *)
Definition conforms (output_info : list (list SpanInfo)) (self : DataSampler)
  (c o : nat) (row : list Q) : Prop :=
  exists st d rid k x,
    discrete_spans output_info 0 !! c = Some (st, d) /\ o < d /\
    rid_lookup self c o = Some rid /\ k ∈ rid /\
    rows (_data self) !! k = Some row /\
    slice row st (st + d) !! o = Some x /\ ~ (x == 0)%Q /\
    forall p, one_hot_at d p (slice row st (st + d)) ->
              argmax Q_gt (slice row st (st + d)) = Ok o.

(** *** Categorical draws *)

(** First index, counted from [i], of a [true] entry. *)
Fixpoint find_true (i : nat) (l : list bool) : option nat :=
  match l with
  | [] => None
  | b :: l' => if b then Some i else find_true (S i) l'
  end.

(** [k] is the index of the first entry of [cs] that exceeds [r]. *)
Definition first_exceeding (cs : list fl) (r : Q) (k : nat) : Prop :=
  (exists c, cs !! k = Some c /\ fl_gtb c r = true) /\
  forall j c, j < k -> cs !! j = Some c -> fl_gtb c r = false.

(** The draw made for one batch element: column [c], uniform value [r]. *)
Definition choice_of (self : DataSampler) (c : nat) (r : Q) : nat :=
  default 0
    (find_true 0
       (map (fun x => fl_gtb x r)
            (cumsum (nth c (rows (_discrete_column_category_prob self)) [])))).

(** What [sample_condvec] is to return for a batch of [b]. *)
Definition condvec_result (self : DataSampler) (b : nat)
  (col_draw : nat -> nat) (u : nat -> Q) : Prop :=
  exists cond mask ids cats,
    sample_condvec self b col_draw u = Ok (Some (cond, mask, ids, cats)) /\
    shape1 cond = _n_categories self /\ length (rows cond) = b /\
    shape1 mask = _n_discrete_columns self /\ length (rows mask) = b /\
    length ids = b /\ length cats = b /\
    forall i, i < b ->
      exists c k st crow mrow,
        ids !! i = Some c /\ cats !! i = Some k /\
        _discrete_column_cond_st self !! c = Some st /\
        rows cond !! i = Some crow /\
        one_hot_at (_n_categories self) (st + k) crow /\
        rows mask !! i = Some mrow /\
        one_hot_at (_n_discrete_columns self) c mrow.

(** The global position one iteration of [sample_original_condvec] sets,
    from the two integer draws of that iteration: the body of the loop up
    to the assignment into [cond]. *)
Definition original_position (self : DataSampler) (row_k col_k : nat)
  : result nat :=
  row_idx <- randint 0 (length (rows (_data self))) row_k ;;
  col_idx <- randint 0 (_n_discrete_columns self) col_k ;;
  matrix_st <- getitem (_discrete_column_matrix_st self) col_idx ;;
  n_cat <- getitem (_discrete_column_n_category self) col_idx ;;
  row <- getitem (rows (_data self)) row_idx ;;
  pick <- argmax Q_gt (slice row matrix_st (matrix_st + n_cat)) ;;
  cond_st <- getitem (_discrete_column_cond_st self) col_idx ;;
  Ok (pick + cond_st).

(** ** Concrete runs *)

(** Used where [log_frequency] is [False] and [np.log] is never called. *)
Definition log_unused (_ : Q) : fl := NaN.

(** A stand-in for [np.log] with the sign of the logarithm on [1, inf):
    its tangent at 1.  It only shows that what is assumed of [np.log] can
    be met. *)
Definition log_tangent (q : Q) : fl := Fin (q - 1).

(** A discrete column of [d] categories. *)
Definition softmax (d : nat) : list SpanInfo :=
  [{| dim := d; activation_fn := "softmax" |}].

(** A continuous column: a scalar and an indicator over [d] modes.  It has
    two spans, so it is not discrete although one span is a softmax. *)
Definition continuous (d : nat) : list SpanInfo :=
  [{| dim := 1; activation_fn := "tanh" |}; {| dim := d; activation_fn := "softmax" |}].

(** Four rows over one discrete column of two categories. *)
Definition data_a : ndarray2 Q :=
  mk_ndarray2 2 [[1; 0]; [0; 1]; [1; 0]; [0; 1]]%Q.
Definition sampler_a : DataSampler := sampler_of log_unused data_a [softmax 2] false.
Definition sampler_a_log : DataSampler := sampler_of log_tangent data_a [softmax 2] true.

(** One training row over two adjacent one-hot blocks of two categories:
    category 0 in the first column, category 1 in the second. *)
Definition data_two_blocks : ndarray2 Q := mk_ndarray2 4 [[1; 0; 0; 1]]%Q.
Definition layout_two_blocks : list (list SpanInfo) := [softmax 2; softmax 2].
Definition sampler_two_blocks : DataSampler :=
  sampler_of log_unused data_two_blocks layout_two_blocks false.

(** Two rows that both hold category 0 of a two-category column. *)
Definition data_one_category : ndarray2 Q := mk_ndarray2 2 [[1; 0]; [1; 0]]%Q.
Definition sampler_one_category : DataSampler :=
  sampler_of log_unused data_one_category [softmax 2] false.

(** A layout whose second discrete column has no category at all. *)
Definition layout_zero_width : list (list SpanInfo) := [softmax 2; softmax 0].
Definition sampler_zero_width : DataSampler :=
  sampler_of log_unused data_a layout_zero_width false.

(** An empty training matrix with two columns. *)
Definition data_empty : ndarray2 Q := mk_ndarray2 2 [].
Definition sampler_empty : DataSampler :=
  sampler_of log_unused data_empty [softmax 2] false.

(** ** Further vocabulary *)

(** A discrete span that reads past the last matrix column. *)
Definition pokes_out (data : ndarray2 Q) (span : nat * nat) : Prop :=
  0 < span.2 /\ shape1 data < span.1 + span.2.

(** Five matrix columns: a two-category column, a continuous column with
    one mode, and a second one-hot block of one category. *)
Definition data_mixed : ndarray2 Q :=
  mk_ndarray2 5 [[1; 0; 3 # 10; 1; 1]; [0; 1; -1 # 2; 1; 1]; [0; 1; 0; 1; 1]]%Q.
Definition layout_mixed : list (list SpanInfo) :=
  [softmax 2; continuous 1; softmax 1].
Definition sampler_mixed : DataSampler :=
  sampler_of log_unused data_mixed layout_mixed false.

(** Entry [j] of [row] exists and is not zero. *)
Definition nonzero_at (row : list Q) (j : nat) : Prop :=
  exists x, row !! j = Some x /\ ~ (x == 0)%Q.

(** The entries of [l] grow strictly with their position. *)
Definition increasing (l : list nat) : Prop :=
  forall i j a b, i < j -> l !! i = Some a -> l !! j = Some b -> a < b.

(** The block of [row] that starts at matrix column [st] and is [d] wide is
    one-hot: a one at some category and zeros at the others. *)
Definition one_hot_block (st d : nat) (row : list Q) : Prop :=
  exists o, o < d /\
    forall j, j < d -> (nth (st + j) row 0 == if j =? o then 1 else 0)%Q.

(** The natural number [n] as a rational. *)
Definition Qnat (n : nat) : Q := inject_Z (Z.of_nat n).

(** *** The categorical draw for an arbitrary addition

    [np.cumsum] and the index [(cumsum > r).argmax()] with the addition
    left open: what the draw guarantees rests on no property of the
    arithmetic other than that adding zero does not change how a value
    compares, which binary64 addition has as well as the exact one. *)
Fixpoint cumsum_from_with (add : fl -> fl -> fl) (acc : fl) (l : list fl)
  : list fl :=
  match l with
  | [] => []
  | x :: l' => let a := add acc x in a :: cumsum_from_with add a l'
  end.

Definition cumsum_with (add : fl -> fl -> fl) (l : list fl) : list fl :=
  match l with
  | [] => []
  | x :: l' => x :: cumsum_from_with add x l'
  end.

Definition draw_index_with (add : fl -> fl -> fl) (row : list fl) (r : Q) : nat :=
  default 0 (find_true 0 (map (fun x => fl_gtb x r) (cumsum_with add row))).

(** ** Basic facts *)

Lemma bind_Ok {A B} (m : result A) (f : A -> result B) b :
  bind m f = Ok b <-> exists a, m = Ok a /\ f a = Ok b.
Proof.
  destruct m; simpl; split.
  - intros H; eauto.
  - by intros (a' & [= ->] & H).
  - done.
  - by intros (a' & ? & _).
Qed.

Lemma mapM_ext_Ok {A B} (f : A -> result B) (g : A -> B) l :
  Forall (fun x => f x = Ok (g x)) l -> mapM f l = Ok (map g l).
Proof.
  induction 1 as [|x l Hx _ IH]; simpl; [done|].
  by rewrite Hx; simpl; rewrite IH.
Qed.

Lemma mapM_Ok_inv {A B} (f : A -> result B) l l' :
  mapM f l = Ok l' -> Forall2 (fun x y => f x = Ok y) l l'.
Proof.
  revert l'; induction l as [|x l IH]; simpl; intros l' H.
  - by simplify_eq.
  - apply bind_Ok in H as (y & Hy & H). apply bind_Ok in H as (ys & Hys & H).
    simplify_eq. constructor; auto.
Qed.

Lemma mapM_raises {A B} (f : A -> result B) l x :
  x ∈ l -> raises (f x) -> raises (mapM f l).
Proof.
  intros Hin [e He]. induction l as [|y l IH]; simpl.
  - by apply elem_of_nil in Hin.
  - apply elem_of_cons in Hin as [->|Hin].
    + rewrite He. by exists e.
    + destruct (f y); simpl; [|by eexists].
      destruct (IH Hin) as [e2 He2]. rewrite He2. by exists e2.
Qed.

Lemma is_discrete_sum_dims l :
  _is_discrete_column l = true -> sum_dims l = dim (span0 l).
Proof.
  destruct l as [|s [|]]; simpl; try done; intros _; unfold sum_dims; simpl; lia.
Qed.

Lemma discrete_dims_spans info st :
  discrete_dims info = map snd (discrete_spans info st).
Proof.
  unfold discrete_dims. revert st; induction info as [|l info IH]; intros st; [done|].
  simpl. rewrite filter_cons.
  destruct (decide (_is_discrete_column l = true)) as [E|E].
  - rewrite E. simpl. f_equal. apply IH.
  - apply not_true_is_false in E. rewrite E. apply IH.
Qed.

Lemma discrete_spans_bound info st s d :
  (s, d) ∈ discrete_spans info st -> st <= s /\ s + d <= st + total_width info.
Proof.
  revert st; induction info as [|l info IH]; intros st; simpl; [by intros ?%elem_of_nil|].
  unfold total_width; simpl; fold (total_width info).
  destruct (_is_discrete_column l) eqn:E.
  - rewrite (is_discrete_sum_dims _ E). intros [?|H]%elem_of_cons.
    + simplify_eq. lia.
    + apply IH in H. lia.
  - intros H. apply IH in H. lia.
Qed.

(** *** The first loop *)

Lemma rid_by_cat_loop_Ok data st js acc :
  Forall (fun j => st + j < shape1 data) js ->
  rid_by_cat_loop data st js acc
  = Ok (acc ++ map (fun j => np_nonzero (map (fun r => nth (st + j) r 0%Q) (rows data))) js).
Proof.
  intros H; revert acc; induction H as [|j js Hj _ IH]; intros acc; simpl.
  - by rewrite app_nil_r.
  - unfold getcol. apply Nat.ltb_lt in Hj. rewrite Hj. simpl.
    rewrite IH. by rewrite <- app_assoc.
Qed.

Lemma rid_by_cat_loop_raises data st js acc :
  Exists (fun j => shape1 data <= st + j) js ->
  rid_by_cat_loop data st js acc = Raise IndexError.
Proof.
  intros H; revert acc; induction js as [|j js IH]; intros acc; simpl.
  - by apply Exists_nil in H.
  - unfold getcol. destruct (st + j <? shape1 data) eqn:E; simpl; [|done].
    apply IH. apply Exists_cons in H as [H|H]; [|done].
    apply Nat.ltb_lt in E. lia.
Qed.

Lemma first_pass_Ok data info st rid :
  st + total_width info <= shape1 data ->
  first_pass data info st rid
  = Ok (st + total_width info, rid ++ map (rid_of data) (discrete_spans info st)).
Proof.
  revert st rid; induction info as [|l info IH]; intros st rid; simpl.
  - intros _. unfold total_width; simpl. by rewrite Nat.add_0_r, app_nil_r.
  - unfold total_width; simpl; fold (total_width info). intros Hle.
    destruct (_is_discrete_column l) eqn:E.
    + rewrite (is_discrete_sum_dims _ E) in *.
      rewrite rid_by_cat_loop_Ok.
      2:{ apply Forall_forall. intros j Hj%elem_of_seq. lia. }
      simpl. rewrite IH by lia. rewrite <- app_assoc. simpl.
      do 2 f_equal. lia.
    + rewrite IH by lia. do 2 f_equal. lia.
Qed.

Lemma first_pass_st data info st rid st' rid' :
  first_pass data info st rid = Ok (st', rid') -> st' = st + total_width info.
Proof.
  revert st rid; induction info as [|l info IH]; intros st rid; simpl.
  - intros ?; simplify_eq. unfold total_width; simpl. lia.
  - unfold total_width; simpl; fold (total_width info).
    destruct (_is_discrete_column l) eqn:E.
    + rewrite (is_discrete_sum_dims _ E).
      intros (r & _ & H)%bind_Ok. apply IH in H. lia.
    + intros H. apply IH in H. lia.
Qed.

Lemma first_pass_IndexError data info st rid e :
  first_pass data info st rid = Raise e -> e = IndexError.
Proof.
  revert st rid; induction info as [|l info IH]; intros st rid; simpl; [done|].
  destruct (_is_discrete_column l); [|by apply IH].
  destruct (rid_by_cat_loop data st (seq 0 (dim (span0 l))) []) eqn:E; simpl.
  - apply IH.
  - intros ?; simplify_eq.
    assert (forall js acc e, rid_by_cat_loop data st js acc = Raise e -> e = IndexError) as Hl.
    { clear. induction js as [|j js IH]; intros acc e; simpl; [done|].
      unfold getcol. destruct (st + j <? shape1 data); simpl; [apply IH|congruence]. }
    eauto.
Qed.

(** *** The second loop *)

Lemma take_S_insert {A} (l : list A) c v :
  c < length l -> take (S c) (<[c := v]> l) = take c l ++ [v].
Proof.
  intros Hc. erewrite take_S_r; [|by apply list_lookup_insert_eq].
  by rewrite take_insert_ge by lia.
Qed.

Lemma length_col_sums data st ed :
  length (col_sums data st ed) = Nat.min ed (shape1 data) - st.
Proof. unfold col_sums. by rewrite length_map, length_seq. Qed.

Lemma length_category_prob_of np_log lf freq :
  length (category_prob_of np_log lf freq) = length freq.
Proof. unfold category_prob_of. destruct lf; by rewrite !length_map. Qed.

Lemma second_pass_Ok np_log data lf info : forall s,
  let spans := discrete_spans info (p_st s) in
  let c := current_id s in
  let n := length (p_cond_st s) in
  let maxc := shape1 (p_category_prob s) in
  c + length spans <= n ->
  length (p_n_category s) = n ->
  length (rows (p_category_prob s)) = n ->
  drop c (rows (p_category_prob s)) = replicate (n - c) (replicate maxc (Fin 0)) ->
  Forall (fun span => span.2 <= maxc) spans ->
  p_st s + total_width info <= shape1 data ->
  second_pass np_log data lf info s
  = Ok {| p_st := p_st s + total_width info;
          current_id := c + length spans;
          current_cond_st := current_cond_st s + sum_list (map snd spans);
          p_cond_st := take c (p_cond_st s)
                       ++ cond_starts (current_cond_st s) (map snd spans)
                       ++ drop (c + length spans) (p_cond_st s);
          p_n_category := take c (p_n_category s) ++ map snd spans
                          ++ drop (c + length spans) (p_n_category s);
          p_category_prob :=
            mk_ndarray2 maxc
              (take c (rows (p_category_prob s))
               ++ map (prob_row_of np_log data lf maxc) spans
               ++ replicate (n - (c + length spans)) (replicate maxc (Fin 0))) |}.
Proof.
  induction info as [|l info IH]; intros s; simpl.
  - intros Hc Hn Hr Hd _ _. unfold total_width; simpl.
    destruct s as [st c ccs A N [maxc R]]; simpl in *.
    rewrite !Nat.add_0_r, !take_drop, <- Hd, take_drop. done.
  - unfold total_width; simpl; fold (total_width info).
    unfold second_step.
    destruct (_is_discrete_column l) eqn:E.
    + rewrite (is_discrete_sum_dims _ E).
      destruct s as [st c ccs A N [maxc R]]; simpl in *.
      set (d := dim (span0 l)).
      intros Hc Hn Hr Hd Hmax Hw.
      apply Forall_cons in Hmax as [Hdm Hmax]; simpl in Hdm.
      assert (R !! c = Some (replicate maxc (Fin 0))) as Hrow.
      { rewrite <- (Nat.add_0_r c), <- lookup_drop, Hd.
        apply lookup_replicate_2. lia. }
      unfold setrow_prefix; simpl. rewrite Hrow.
      rewrite length_category_prob_of, length_col_sums.
      replace (Nat.min (st + d) (shape1 data) - st) with d by lia.
      replace (Nat.min d maxc) with d by lia.
      rewrite Nat.eqb_refl. simpl.
      unfold setitem.
      destruct (Nat.ltb_spec c (length A)) as [_|?]; [|lia]. simpl.
      destruct (Nat.ltb_spec c (length N)) as [_|?]; [|lia]. simpl.
      rewrite IH; simpl; rewrite ?length_insert; try lia; try done.
      * f_equal. f_equal; try lia.
        -- rewrite (Nat.add_1_r c), take_S_insert by lia.
           rewrite <- app_assoc. simpl. do 3 f_equal.
           rewrite drop_insert_lt by lia. f_equal. lia.
        -- rewrite (Nat.add_1_r c), take_S_insert by lia.
           rewrite <- app_assoc. simpl. do 3 f_equal.
           rewrite drop_insert_lt by lia. f_equal. lia.
        -- f_equal. rewrite (Nat.add_1_r c), take_S_insert by lia.
           rewrite <- app_assoc. simpl. f_equal. f_equal.
           ++ unfold prob_row_of; simpl. fold d. f_equal.
              by rewrite drop_replicate.
           ++ do 2 f_equal. lia.
      * rewrite drop_insert_lt by lia.
        rewrite <- drop_drop, Hd.
        rewrite drop_replicate. f_equal. lia.
    + destruct s as [st c ccs A N [maxc R]]; simpl in *.
      intros Hc Hn Hr Hd Hmax Hw.
      rewrite IH; simpl; try lia; try done.
      do 2 f_equal. lia.
Qed.

Lemma length_cond_starts acc dims : length (cond_starts acc dims) = length dims.
Proof. revert acc; induction dims; intros acc; simpl; auto. Qed.

Lemma init_Ok np_log data info lf :
  total_width info = shape1 data ->
  __init__ np_log data info lf = Ok (sampler_of np_log data info lf).
Proof.
  intros HI1. unfold __init__.
  rewrite first_pass_Ok by (simpl; lia). simpl.
  rewrite HI1, Nat.eqb_refl. simpl.
  rewrite second_pass_Ok; simpl; rewrite ?length_replicate.
  - unfold sampler_of.
    rewrite (discrete_dims_spans info 0), length_map.
    rewrite Nat.sub_diag, !drop_replicate, Nat.sub_diag. simpl.
    by rewrite !app_nil_r.
  - rewrite (discrete_dims_spans info 0), length_map. lia.
  - done.
  - done.
  - by rewrite Nat.sub_0_r.
  - apply Forall_forall. intros [s d] Hin. simpl.
    apply max_list_elem_of_le. rewrite (discrete_dims_spans info 0).
    apply list_elem_of_fmap. by exists (s, d).
  - lia.
Qed.

Lemma init_raises np_log data info lf :
  total_width info <> shape1 data -> raises (__init__ np_log data info lf).
Proof.
  intros HI1. unfold __init__.
  destruct (first_pass data info 0 []) as [[st rid]|e] eqn:E; simpl.
  - apply first_pass_st in E. simpl in E. subst st.
    destruct (Nat.eqb_spec (total_width info) (shape1 data)); [done|].
    simpl. by exists AssertionError.
  - by exists e.
Qed.

Lemma init_inv np_log data info lf s :
  __init__ np_log data info lf = Ok s ->
  total_width info = shape1 data /\ s = sampler_of np_log data info lf.
Proof.
  intros H.
  destruct (decide (total_width info = shape1 data)) as [HI1|HI1].
  - split; [done|]. rewrite init_Ok in H by done. by simplify_eq.
  - destruct (init_raises np_log data info lf HI1) as [e He]. congruence.
Qed.

(** ** Construction and Invariant I1 *)

(** C3: construction succeeds exactly when the span widths of the layout add
    up to the column count of the matrix; on every other matrix/layout pair
    the constructor raises (the assertion after the first loop, or an
    out-of-range column read inside it). *)
Theorem init_succeeds_iff_layout_consistent np_log data output_info log_frequency :
  (total_width output_info = shape1 data <->
   is_Ok (__init__ np_log data output_info log_frequency)) /\
  (total_width output_info <> shape1 data <->
   raises (__init__ np_log data output_info log_frequency)).
Proof.
  split; split.
  - intros H. eexists. by apply init_Ok.
  - intros [s Hs]. by apply init_inv in Hs as [? _].
  - apply init_raises.
  - intros [e He] HI1. rewrite init_Ok in He by done. done.
Qed.

Lemma init_error_kind np_log data output_info log_frequency e :
  __init__ np_log data output_info log_frequency = Raise e ->
  e = AssertionError \/ e = IndexError.
Proof.
  destruct (decide (total_width output_info = shape1 data)) as [HI1|HI1].
  { rewrite init_Ok by done. done. }
  unfold __init__.
  destruct (first_pass data output_info 0 []) as [[st rid]|e'] eqn:E; simpl.
  - apply first_pass_st in E. simpl in E. subst st.
    destruct (Nat.eqb_spec (total_width output_info) (shape1 data)); [done|].
    simpl. intros [= <-]. by left.
  - intros [= <-]. right. by eapply first_pass_IndexError.
Qed.

(** ** The matrix-start array *)

Lemma matrix_st_read np_log data output_info log_frequency s d :
  __init__ np_log data output_info log_frequency = Ok s ->
  d < _n_discrete_columns s ->
  getitem (_discrete_column_matrix_st s) d = Ok 0.
Proof.
  intros [_ ->]%init_inv. simpl. intros Hd.
  unfold getitem. by rewrite lookup_replicate_2.
Qed.

(** C10: the constructor leaves [_discrete_column_matrix_st] as allocated,
    all zeros, so reading any discrete column's matrix start yields 0. *)
Theorem matrix_st_all_zero np_log data output_info log_frequency s :
  __init__ np_log data output_info log_frequency = Ok s ->
  _discrete_column_matrix_st s = replicate (_n_discrete_columns s) 0 /\
  forall d, d < _n_discrete_columns s ->
            getitem (_discrete_column_matrix_st s) d = Ok 0.
Proof.
  intros Hs. split.
  - by apply init_inv in Hs as [_ ->].
  - intros d Hd. by eapply matrix_st_read.
Qed.

Lemma matrix_st_all_zero_witness :
  __init__ log_unused data_two_blocks layout_two_blocks false
  = Ok sampler_two_blocks /\
  _discrete_column_matrix_st sampler_two_blocks = [0; 0] /\
  getitem (_discrete_column_matrix_st sampler_two_blocks) 1 = Ok 0 /\
  discrete_spans layout_two_blocks 0 !! 1 = Some (2, 2).
Proof.
  assert (__init__ log_unused data_two_blocks layout_two_blocks false
          = Ok sampler_two_blocks) as H by reflexivity.
  split; [exact H|].
  destruct (matrix_st_all_zero _ _ _ _ _ H) as [H1 H2].
  split; [exact H1|]. split; [apply H2; simpl; lia|reflexivity].
Defined.

(** ** Layouts without discrete columns *)

Lemma no_discrete_spans info st :
  Forall (fun l => _is_discrete_column l = false) info ->
  discrete_spans info st = [].
Proof.
  intros H; revert st; induction H as [|l info Hl _ IH]; intros st; simpl; [done|].
  rewrite Hl. apply IH.
Qed.

(** C9: with no discrete column in a layout consistent with the matrix,
    construction succeeds with every per-column array empty, both condition
    samplers return [None] whatever the batch size, and [dim_cond_vec] is 0. *)
Theorem no_discrete_columns np_log data output_info log_frequency :
  Forall (fun l => _is_discrete_column l = false) output_info ->
  total_width output_info = shape1 data ->
  exists s,
    __init__ np_log data output_info log_frequency = Ok s /\
    _n_discrete_columns s = 0 /\
    _discrete_column_matrix_st s = [] /\
    _rid_by_cat_cols s = [] /\
    _discrete_column_cond_st s = [] /\
    _discrete_column_n_category s = [] /\
    _discrete_column_category_prob s = mk_ndarray2 0 [] /\
    (forall batch col_draw u, sample_condvec s batch col_draw u = Ok None) /\
    (forall batch row_draw col_draw,
        sample_original_condvec s batch row_draw col_draw = Ok None) /\
    dim_cond_vec s = 0.
Proof.
  intros Hnone HI1. eexists. split; [by apply init_Ok|].
  unfold sample_condvec, sample_original_condvec, dim_cond_vec, sampler_of.
  simpl. rewrite (discrete_dims_spans _ 0), (no_discrete_spans _ _ Hnone).
  by repeat split.
Qed.

Lemma no_discrete_columns_witness :
  Forall (fun l => _is_discrete_column l = false) [continuous 2; continuous 1] /\
  total_width [continuous 2; continuous 1] = 5 /\
  exists s,
    __init__ log_unused (mk_ndarray2 5 [[1#2; 1; 0; -1#3; 1]]%Q)
      [continuous 2; continuous 1] false = Ok s /\
    _n_discrete_columns s = 0 /\
    _discrete_column_matrix_st s = [] /\
    _rid_by_cat_cols s = [] /\
    _discrete_column_cond_st s = [] /\
    _discrete_column_n_category s = [] /\
    _discrete_column_category_prob s = mk_ndarray2 0 [] /\
    (forall batch col_draw u, sample_condvec s batch col_draw u = Ok None) /\
    (forall batch row_draw col_draw,
        sample_original_condvec s batch row_draw col_draw = Ok None) /\
    dim_cond_vec s = 0.
Proof.
  assert (Forall (fun l => _is_discrete_column l = false)
            [continuous 2; continuous 1]) as H1
    by (repeat constructor).
  split; [exact H1|]. split; [reflexivity|].
  apply (no_discrete_columns log_unused (mk_ndarray2 5 [[1#2; 1; 0; -1#3; 1]]%Q)
           [continuous 2; continuous 1] false H1).
  reflexivity.
Defined.

(** ** One-hot rows *)

Lemma one_hot_at_insert width pos :
  pos < width -> one_hot_at width pos (<[pos := 1%Q]> (replicate width 0%Q)).
Proof.
  intros Hp. split; [by rewrite length_insert, length_replicate|].
  split; [done|]. intros j Hj.
  destruct (Nat.eqb_spec j pos) as [->|Hne].
  - apply list_lookup_insert_eq. by rewrite length_replicate.
  - rewrite list_lookup_insert_ne by done. by apply lookup_replicate_2.
Qed.

Lemma one_hot_at_unique width p q row :
  one_hot_at width p row -> one_hot_at width q row -> p = q.
Proof.
  intros (_ & Hp & H1) (_ & _ & H2).
  specialize (H1 p Hp). specialize (H2 p Hp). rewrite H1 in H2.
  rewrite Nat.eqb_refl in H2.
  destruct (Nat.eqb_spec p q); [done|]. discriminate.
Qed.

(** ** The fixed condition *)

(** What the code computes: the one is written at [value_id], the stored
    matrix start being zero. *)
Lemma generate_cond_value_id np_log data output_info log_frequency s d v batch_size :
  __init__ np_log data output_info log_frequency = Ok s ->
  d < _n_discrete_columns s ->
  v < _n_categories s ->
  exists row,
    generate_cond_from_condition_column_info s
      {| discrete_column_id := d; value_id := v |} batch_size
    = Ok (mk_ndarray2 (_n_categories s) (replicate batch_size row)) /\
    one_hot_at (_n_categories s) v row.
Proof.
  intros Hs Hd Hv.
  unfold generate_cond_from_condition_column_info; simpl.
  rewrite (matrix_st_read _ _ _ _ _ _ Hs Hd). simpl. unfold setcol; simpl.
  destruct (Nat.ltb_spec v (_n_categories s)) as [_|?]; [|lia].
  eexists. split.
  - f_equal. f_equal. apply fmap_replicate.
  - by apply one_hot_at_insert.
Qed.

(** C1: on two discrete columns of two categories each, the condition
    (column 1, value 0) must set global position [cond_st[1] + 0 = 2]; the
    code sets position 0, the bit of column 0. *)
Theorem generate_cond_ignores_cond_start :
  __init__ log_unused data_two_blocks layout_two_blocks false
  = Ok sampler_two_blocks /\
  getitem (_discrete_column_cond_st sampler_two_blocks) 1 = Ok 2 /\
  generate_cond_from_condition_column_info sampler_two_blocks
    {| discrete_column_id := 1; value_id := 0 |} 1
  = Ok (mk_ndarray2 4 [[1; 0; 0; 0]]%Q) /\
  one_hot_at 4 0 [1; 0; 0; 0]%Q /\
  ~ one_hot_at 4 (2 + 0) [1; 0; 0; 0]%Q.
Proof.
  split; [reflexivity|]. split; [reflexivity|]. split; [reflexivity|].
  assert (one_hot_at 4 0 [1; 0; 0; 0]%Q) as H0
    by (apply (one_hot_at_insert 4 0); lia).
  split; [exact H0|].
  intros H2. by pose proof (one_hot_at_unique _ _ _ _ H0 H2).
Qed.

(** ** The empirical condition *)

(** C2: with the training row [1 0 | 0 1], drawing row 0 and discrete
    column 1 must set global position [cond_st[1] + 1 = 3], the row's
    category in column 1's own block (matrix columns 2..3); the code reads
    matrix columns 0..1 instead, column 0's block, and sets position 2. *)
Theorem original_condvec_reads_first_block :
  __init__ log_unused data_two_blocks layout_two_blocks false
  = Ok sampler_two_blocks /\
  discrete_spans layout_two_blocks 0 !! 1 = Some (2, 2) /\
  argmax Q_gt (slice [1; 0; 0; 1]%Q 2 (2 + 2)) = Ok 1 /\
  getitem (_discrete_column_cond_st sampler_two_blocks) 1 = Ok 2 /\
  sample_original_condvec sampler_two_blocks 1 (fun _ => 0) (fun _ => 1)
  = Ok (Some (mk_ndarray2 4 [[0; 0; 1; 0]]%Q)) /\
  one_hot_at 4 2 [0; 0; 1; 0]%Q /\
  ~ one_hot_at 4 (2 + 1) [0; 0; 1; 0]%Q.
Proof.
  split; [reflexivity|]. split; [reflexivity|]. split; [reflexivity|].
  split; [reflexivity|]. split; [reflexivity|].
  assert (one_hot_at 4 2 [0; 0; 1; 0]%Q) as H0
    by (apply (one_hot_at_insert 4 2); lia).
  split; [exact H0|].
  intros H2. by pose proof (one_hot_at_unique _ _ _ _ H0 H2).
Qed.

(** ** Arg-max of a one-hot block *)

Lemma argmax_from_zeros bi i (l : list Q) :
  Forall (fun x => x = 0%Q) l -> argmax_from Q_gt bi 1%Q i l = bi.
Proof.
  intros H; revert i; induction H as [|x l -> _ IH]; intros i; simpl; [done|].
  apply IH.
Qed.

Lemma argmax_from_one_hot bi i p (l : list Q) :
  p < length l ->
  (forall j, j < length l -> l !! j = Some (if j =? p then 1%Q else 0%Q)) ->
  argmax_from Q_gt bi 0%Q i l = i + p.
Proof.
  revert bi i p; induction l as [|x l IH]; intros bi i p Hp H; simpl in *; [lia|].
  pose proof (H 0 ltac:(lia)) as H0. simpl in H0.
  assert (forall j, j < length l -> l !! j = Some (if S j =? p then 1%Q else 0%Q)) as Ht.
  { intros j Hj. apply (H (S j)). lia. }
  destruct p as [|p]; simpl in H0; simplify_eq.
  - change (Q_gt 1 0) with true. simpl. rewrite argmax_from_zeros; [lia|].
    apply Forall_forall. intros x [j Hj]%list_elem_of_lookup.
    rewrite Ht in Hj by (by eapply lookup_lt_Some). by simplify_eq.
  - change (Q_gt 0 0) with false. simpl. rewrite (IH _ _ p); [lia|lia|].
    intros j Hj. by rewrite Ht.
Qed.

Lemma argmax_one_hot d p (l : list Q) :
  one_hot_at d p l -> argmax Q_gt l = Ok p.
Proof.
  intros (Hlen & Hp & H). subst d.
  destruct l as [|x l]; simpl in *; [lia|].
  pose proof (H 0 ltac:(lia)) as H0. simpl in H0.
  assert (forall j, j < length l -> l !! j = Some (if S j =? p then 1%Q else 0%Q)) as Ht.
  { intros j Hj. apply (H (S j)). lia. }
  destruct p as [|p]; simpl in H0; simplify_eq; f_equal.
  - apply argmax_from_zeros.
    apply Forall_forall. intros x [j Hj]%list_elem_of_lookup.
    rewrite Ht in Hj by (by eapply lookup_lt_Some). by simplify_eq.
  - rewrite (argmax_from_one_hot _ _ p); [lia|lia|].
    intros j Hj. by rewrite Ht.
Qed.

(** ** The row index *)

Lemma elem_of_nonzero_from i v k :
  k ∈ nonzero_from i v <->
  exists x, i <= k /\ v !! (k - i) = Some x /\ Qeq_bool x 0 = false.
Proof.
  revert i; induction v as [|y v IH]; intros i; simpl.
  - split; [by intros ?%elem_of_nil|]. by intros (x & _ & ? & _).
  - destruct (Qeq_bool y 0) eqn:Ey.
    + rewrite IH. split.
      * intros (x & Hle & Hx & Hnz). exists x. split; [lia|]. split; [|done].
        replace (k - i) with (S (k - S i)) by lia. done.
      * intros (x & Hle & Hx & Hnz).
        destruct (decide (k = i)) as [->|Hne].
        { rewrite Nat.sub_diag in Hx. simpl in Hx. simplify_eq. congruence. }
        exists x. split; [lia|]. split; [|done].
        replace (k - i) with (S (k - S i)) in Hx by lia. done.
    + rewrite elem_of_cons, IH. split.
      * intros [->|(x & Hle & Hx & Hnz)].
        { exists y. rewrite Nat.sub_diag. by repeat split. }
        exists x. split; [lia|]. split; [|done].
        replace (k - i) with (S (k - S i)) by lia. done.
      * intros (x & Hle & Hx & Hnz).
        destruct (decide (k = i)) as [->|Hne]; [by left|right].
        exists x. split; [lia|]. split; [|done].
        replace (k - i) with (S (k - S i)) in Hx by lia. done.
Qed.

Lemma slice_lookup {A} (row : list A) st d o :
  o < d -> slice row st (st + d) !! o = row !! (st + o).
Proof.
  intros Ho. unfold slice. replace (st + d - st) with d by lia.
  rewrite lookup_take_lt by done. apply lookup_drop.
Qed.

Lemma rid_lookup_sampler_of np_log data info lf c o rid :
  rid_lookup (sampler_of np_log data info lf) c o = Some rid ->
  exists st d,
    discrete_spans info 0 !! c = Some (st, d) /\ o < d /\
    forall k, k ∈ rid <->
      exists row x, rows data !! k = Some row /\
                    slice row st (st + d) !! o = Some x /\
                    Qeq_bool x 0 = false.
Proof.
  unfold rid_lookup; simpl. rewrite list_lookup_fmap.
  destruct (discrete_spans info 0 !! c) as [[st d]|] eqn:Hc; simpl; [|done].
  unfold rid_of; simpl. rewrite list_lookup_fmap.
  destruct (seq 0 d !! o) as [j|] eqn:Ho; simpl; [|done].
  apply lookup_seq in Ho as [-> Ho]. simpl. intros [= <-].
  exists st, d. split; [done|]. split; [done|].
  intros k. unfold np_nonzero. rewrite elem_of_nonzero_from.
  rewrite Nat.sub_0_r. setoid_rewrite list_lookup_fmap.
  split.
  - intros (x & _ & Hx & Hnz).
    destruct (rows data !! k) as [row|] eqn:Hk; simpl in Hx; [|done].
    simplify_eq. exists row, (nth (st + o) row 0%Q).
    split; [done|]. split; [|done].
    rewrite slice_lookup by done.
    destruct (row !! (st + o)) as [y|] eqn:Hy.
    + by rewrite (nth_lookup_Some _ _ _ _ Hy).
    + rewrite nth_lookup, Hy in Hnz. simpl in Hnz. done.
  - intros (row & x & Hk & Hx & Hnz). rewrite Hk. simpl.
    rewrite slice_lookup in Hx by done.
    exists (nth (st + o) row 0%Q). split; [lia|]. split; [done|].
    by rewrite (nth_lookup_Some _ _ _ _ Hx).
Qed.

(** ** Matched-row retrieval *)

Lemma random_choice_Ok {A} (a : list A) k :
  a <> [] -> exists x, random_choice a k = Ok x /\ x ∈ a.
Proof.
  intros Ha. destruct a as [|y a]; [done|].
  unfold random_choice, getitem.
  assert (k mod length (y :: a) < length (y :: a)) as Hlt
    by (apply Nat.mod_upper_bound; simpl; lia).
  apply lookup_lt_is_Some_2 in Hlt as [x Hx]. rewrite Hx.
  exists x. split; [done|]. by eapply list_elem_of_lookup_2.
Qed.

Lemma random_choice_inv {A} (a : list A) k x :
  random_choice a k = Ok x -> a <> [] /\ x ∈ a.
Proof.
  destruct a as [|y a]; [done|]. unfold random_choice, getitem.
  destruct ((y :: a) !! (k mod length (y :: a))) eqn:E; [|done].
  intros [= ->]. split; [done|]. by eapply list_elem_of_lookup_2.
Qed.

Lemma sample_data_loop_inv self draw pairs : forall i idx idx',
  sample_data_loop self draw i pairs idx = Ok idx' ->
  exists ks,
    idx' = idx ++ ks /\
    Forall2 (fun co k => exists rid, rid_lookup self co.1 co.2 = Some rid /\ k ∈ rid)
            pairs ks /\
    Forall (servable self) pairs.
Proof.
  induction pairs as [|[c o] pairs IH]; intros i idx idx'; simpl.
  - intros [= <-]. exists []. by rewrite app_nil_r.
  - intros (by_cat & Hc & H)%bind_Ok. apply bind_Ok in H as (rid & Ho & H).
    apply bind_Ok in H as (k & Hk & H).
    apply IH in H as (ks & -> & HF2 & HF).
    unfold getitem in Hc, Ho.
    destruct (_rid_by_cat_cols self !! c) as [bc|] eqn:Ec; [|done].
    injection Hc as ->.
    destruct (by_cat !! o) as [r|] eqn:Eo; [|done].
    injection Ho as ->.
    apply random_choice_inv in Hk as [Hne Hin].
    assert (rid_lookup self c o = Some rid) as Hl
      by (unfold rid_lookup; by rewrite Ec).
    exists (k :: ks). split; [by rewrite <- app_assoc|]. split.
    + constructor; [by exists rid|done].
    + constructor; [by exists rid|done].
Qed.

Lemma sample_data_loop_Ok self draw pairs : forall i idx,
  Forall (servable self) pairs ->
  is_Ok (sample_data_loop self draw i pairs idx).
Proof.
  induction pairs as [|[c o] pairs IH]; intros i idx HF; simpl.
  - by eexists.
  - apply Forall_cons in HF as [(rid & Hl & Hne) HF]. simpl in Hl.
    unfold rid_lookup in Hl. unfold getitem.
    destruct (_rid_by_cat_cols self !! c) as [bc|]; [|done]. simpl.
    rewrite Hl. simpl.
    destruct (random_choice_Ok rid (draw i) Hne) as (k & -> & _). simpl.
    by apply IH.
Qed.

Lemma zip_lookup_Some {A B} (l : list A) (k : list B) i x y :
  l !! i = Some x -> k !! i = Some y -> zip l k !! i = Some (x, y).
Proof.
  intros Hx Hy. apply lookup_zip_with_Some. by exists x, y.
Qed.

Lemma sample_data_Some_inv np_log data info lf s n col opt draw out :
  __init__ np_log data info lf = Ok s ->
  sample_data s n (Some col) opt draw = Ok out ->
  length out = length (zip col opt) /\
  forall i c o, col !! i = Some c -> opt !! i = Some o ->
    exists row, out !! i = Some row /\ conforms info s c o row.
Proof.
  intros Hs. pose proof Hs as [_ ->]%init_inv. simpl.
  intros (idx & Hloop & Hrows)%bind_Ok.
  apply sample_data_loop_inv in Hloop as (ks & -> & HF2 & _). simpl in Hrows.
  apply mapM_Ok_inv in Hrows.
  split.
  { rewrite <- (Forall2_length _ _ _ Hrows). symmetry. by eapply Forall2_length. }
  intros i c o Hc Ho.
  pose proof (zip_lookup_Some _ _ _ _ _ Hc Ho) as Hz.
  destruct (Forall2_lookup_l _ _ _ _ _ HF2 Hz) as (k & Hk & rid & Hl & Hin).
  destruct (Forall2_lookup_l _ _ _ _ _ Hrows Hk) as (row & Hrow & Hget).
  simpl in Hl. exists row. split; [done|].
  destruct (rid_lookup_sampler_of _ _ _ _ _ _ _ Hl) as (st & d & Hsp & Hod & Hrid).
  unfold getitem in Hget.
  destruct (rows data !! k) as [row'|] eqn:Ek; simplify_eq.
  apply Hrid in Hin as (row' & x & Hk' & Hx & Hnz). simplify_eq.
  exists st, d, rid, k, x. repeat split; try done.
  - apply Hrid. by exists row', x.
  - intros Hx0. apply Qeq_bool_iff in Hx0. congruence.
  - intros p Hp. pose proof Hp as (_ & _ & Hall).
    specialize (Hall o Hod). rewrite Hx in Hall.
    destruct (Nat.eqb_spec o p) as [->|_]; [by eapply argmax_one_hot|].
    by simplify_eq.
Qed.

Lemma sample_data_Some_Ok np_log data info lf s n col opt draw :
  __init__ np_log data info lf = Ok s ->
  is_Ok (sample_data s n (Some col) opt draw) <->
  Forall (servable s) (zip col opt).
Proof.
  intros Hs. pose proof Hs as [_ ->]%init_inv. clear Hs. split.
  - intros [out Hout]. simpl in Hout.
    apply bind_Ok in Hout as (idx & Hloop & _).
    by apply sample_data_loop_inv in Hloop as (ks & _ & _ & HF).
  - intros HF. simpl.
    destruct (sample_data_loop_Ok _ draw (zip col opt) 0 [] HF) as [idx Hidx].
    rewrite Hidx. simpl.
    apply sample_data_loop_inv in Hidx as (ks & -> & HF2 & _).
    rewrite (mapM_ext_Ok _ (fun k => nth k (rows data) [])); [by eexists|].
    apply Forall_forall. intros k [j Hj]%list_elem_of_lookup. simpl in Hj.
    destruct (Forall2_lookup_r _ _ _ _ _ HF2 Hj) as ([c o] & _ & rid & Hl & Hin).
    simpl in *.
    destruct (rid_lookup_sampler_of _ _ _ _ _ _ _ Hl) as (st & d & _ & _ & Hrid).
    destruct (proj1 (Hrid k) Hin) as (row & x & Hk & Hx & Hnz).
    unfold getitem. rewrite Hk.
    by rewrite (nth_lookup_Some _ _ _ _ Hk).
Qed.

Lemma sample_data_None_spec (s : DataSampler) n opt draw :
  (is_Ok (sample_data s n None opt draw) <->
   0 < length (rows (_data s)) \/ n = 0) /\
  forall out, sample_data s n None opt draw = Ok out ->
    length out = n /\
    forall i row, out !! i = Some row ->
      rows (_data s) !! (draw i mod length (rows (_data s))) = Some row.
Proof.
  simpl. unfold randint_size, randint. set (R := rows (_data s)).
  destruct (Nat.ltb_spec 0 (length R)) as [Hpos|Hz].
  - rewrite (mapM_ext_Ok _ (fun i => draw i mod length R)).
    2:{ apply Forall_forall. intros i _. simpl. by rewrite Nat.sub_0_r. }
    simpl.
    rewrite (mapM_ext_Ok _ (fun k => nth k R [])).
    2:{ apply Forall_forall. intros k (i & -> & _)%list_elem_of_fmap.
        assert (draw i mod length R < length R) as Hlt
          by (apply Nat.mod_upper_bound; lia).
        apply lookup_lt_is_Some_2 in Hlt as [row Hrow].
        unfold getitem. rewrite Hrow. by rewrite (nth_lookup_Some _ _ _ _ Hrow). }
    split; [split; [by left|by eexists]|].
    intros out [= <-]. rewrite !length_map, length_seq. split; [done|].
    intros i row. rewrite !list_lookup_fmap.
    destruct (seq 0 n !! i) as [j|] eqn:Hj; simpl; [|done].
    apply lookup_seq in Hj as [-> _]. simpl. intros [= <-].
    assert (draw i mod length R < length R) as Hlt
      by (apply Nat.mod_upper_bound; lia).
    apply lookup_lt_is_Some_2 in Hlt as [row Hrow].
    by rewrite (nth_lookup_Some _ _ _ _ Hrow).
  - destruct n as [|n]; simpl.
    + split; [split; [by right|by eexists]|].
      intros out [= <-]. split; [done|]. intros i row. done.
    + split; [split|].
      * by intros [? ?].
      * intros [?|?]; [lia|done].
      * done.
Qed.

(** C5: a conditioned call needs equal-length [col] and [opt]; it returns
    exactly when every requested pair has a non-empty row set, and then it
    returns [len(col)] rows, row [i] being a training row listed in the row
    set of [(col[i], opt[i])], nonzero at category [opt[i]] of column
    [col[i]]'s own block, so that decoding a one-hot block gives [opt[i]].
    An unconditioned call on a training matrix with at least one row
    returns [n] training rows, one per draw (the same row may be drawn
    again). *)
Theorem sample_data_conformance np_log data output_info log_frequency s :
  __init__ np_log data output_info log_frequency = Ok s ->
  (forall n col opt draw,
      length col = length opt ->
      (is_Ok (sample_data s n (Some col) opt draw) <->
       Forall (servable s) (zip col opt)) /\
      forall out, sample_data s n (Some col) opt draw = Ok out ->
        length out = length col /\
        forall i c o, col !! i = Some c -> opt !! i = Some o ->
          exists row, out !! i = Some row /\ conforms output_info s c o row) /\
  (forall n opt draw,
      (0 < length (rows data) -> is_Ok (sample_data s n None opt draw)) /\
      forall out, sample_data s n None opt draw = Ok out ->
        length out = n /\
        forall i row, out !! i = Some row ->
          rows data !! (draw i mod length (rows data)) = Some row).
Proof.
  intros Hs. split.
  - intros n col opt draw Hlen. split; [by eapply sample_data_Some_Ok|].
    intros out Hout.
    destruct (sample_data_Some_inv _ _ _ _ _ _ _ _ _ _ Hs Hout) as [Hl Hrows].
    split; [|done]. rewrite Hl, length_zip. lia.
  - intros n opt draw. pose proof Hs as [_ Heq]%init_inv.
    assert (_data s = data) as Hd by (by rewrite Heq).
    rewrite <- Hd.
    destruct (sample_data_None_spec s n opt draw) as [Hok Hout].
    split; [|exact Hout]. intros Hpos. apply Hok. by left.
Qed.

(** C8: when the row set of some requested pair is empty, the call raises;
    no row is returned in its place. *)
Theorem sample_data_empty_row_set_raises np_log data output_info log_frequency
  s n col opt draw i c o :
  __init__ np_log data output_info log_frequency = Ok s ->
  col !! i = Some c -> opt !! i = Some o ->
  rid_lookup s c o = Some [] ->
  raises (sample_data s n (Some col) opt draw).
Proof.
  intros Hs Hc Ho Hempty.
  destruct (sample_data s n (Some col) opt draw) as [out|e] eqn:E; [|by exists e].
  assert (is_Ok (sample_data s n (Some col) opt draw)) as Hok by (by exists out).
  eapply sample_data_Some_Ok in Hok; [|done].
  pose proof (zip_lookup_Some _ _ _ _ _ Hc Ho) as Hz.
  destruct (Forall_lookup_1 _ _ _ _ Hok Hz) as (rid & Hl & Hne).
  simpl in Hl. congruence.
Qed.

Lemma sample_data_conformance_witness :
  __init__ log_unused data_a [softmax 2] false = Ok sampler_a /\
  length [0] = length [1] /\
  sample_data sampler_a 1 (Some [0]) [1] (fun _ => 1) = Ok [[0; 1]%Q] /\
  exists row, [[0; 1]%Q] !! 0 = Some row /\ conforms [softmax 2] sampler_a 0 1 row.
Proof.
  assert (__init__ log_unused data_a [softmax 2] false = Ok sampler_a) as Hs
    by reflexivity.
  assert (length [0] = length [1]) as Hlen by reflexivity.
  assert (sample_data sampler_a 1 (Some [0]) [1] (fun _ => 1) = Ok [[0; 1]%Q]) as Hout
    by reflexivity.
  split; [exact Hs|]. split; [exact Hlen|]. split; [exact Hout|].
  destruct (sample_data_conformance _ _ _ _ _ Hs) as [Hcond _].
  destruct (Hcond 1 [0] [1] (fun _ => 1) Hlen) as [_ Hrows].
  destruct (Hrows _ Hout) as [_ Hrow].
  apply (Hrow 0 0 1); reflexivity.
Defined.

Lemma sample_data_empty_row_set_raises_witness :
  __init__ log_unused data_one_category [softmax 2] false
  = Ok sampler_one_category /\
  rid_lookup sampler_one_category 0 1 = Some [] /\
  raises (sample_data sampler_one_category 1 (Some [0]) [1] (fun _ => 0)).
Proof.
  assert (__init__ log_unused data_one_category [softmax 2] false
          = Ok sampler_one_category) as Hs by reflexivity.
  assert (rid_lookup sampler_one_category 0 1 = Some []) as He by reflexivity.
  split; [exact Hs|]. split; [exact He|].
  apply (sample_data_empty_row_set_raises _ _ _ _ _ 1 [0] [1] (fun _ => 0) 0 0 1 Hs);
    [reflexivity|reflexivity|exact He].
Defined.

(** ** Arg-max of a row of booleans *)

Lemma find_true_bounds i l k :
  find_true i l = Some k -> i <= k < i + length l.
Proof.
  revert i; induction l as [|b l IH]; intros i; simpl; [done|].
  destruct b; [intros [= <-]; lia|]. intros H%IH. lia.
Qed.

Lemma find_true_Some i l k :
  find_true i l = Some k ->
  l !! (k - i) = Some true /\ forall j, j < k - i -> l !! j = Some false.
Proof.
  revert i; induction l as [|b l IH]; intros i; simpl; [done|].
  destruct b.
  - intros [= <-]. rewrite Nat.sub_diag. split; [done|]. lia.
  - intros H. pose proof (find_true_bounds _ _ _ H) as Hb.
    apply IH in H as [H1 H2].
    replace (k - i) with (S (k - S i)) by lia. split; [done|].
    intros [|j] Hj; [done|]. simpl. apply H2. lia.
Qed.

Lemma find_true_None i l :
  find_true i l = None <-> Forall (fun b => b = false) l.
Proof.
  revert i; induction l as [|b l IH]; intros i; simpl.
  - split; [by constructor|done].
  - destruct b.
    + split; [done|]. by intros [? _]%Forall_cons.
    + rewrite IH. split; [by constructor|]. by intros [_ ?]%Forall_cons.
Qed.

Lemma find_true_app i l1 l2 :
  find_true i (l1 ++ l2)
  = match find_true i l1 with
    | Some k => Some k
    | None => find_true (i + length l1) l2
    end.
Proof.
  revert i; induction l1 as [|b l1 IH]; intros i; simpl.
  - by rewrite Nat.add_0_r.
  - destruct b; [done|]. rewrite IH. by rewrite Nat.add_succ_r.
Qed.

Lemma argmax_from_bool_true bi i l : argmax_from bool_gt bi true i l = bi.
Proof.
  revert i; induction l as [|b l IH]; intros i; simpl; [done|].
  unfold bool_gt at 1. rewrite andb_false_r. apply IH.
Qed.

Lemma argmax_from_bool_false bi i l :
  argmax_from bool_gt bi false i l = default bi (find_true i l).
Proof.
  revert i; induction l as [|b l IH]; intros i; simpl; [done|].
  destruct b; simpl.
  - apply argmax_from_bool_true.
  - apply IH.
Qed.

Lemma argmax_bool l :
  l <> [] -> argmax bool_gt l = Ok (default 0 (find_true 0 l)).
Proof.
  destruct l as [|b l]; [done|]. intros _. simpl. f_equal.
  destruct b; simpl.
  - apply argmax_from_bool_true.
  - apply argmax_from_bool_false.
Qed.

(** ** Cumulative sums *)

Lemma Qltb_lt a b : Qltb a b = true <-> (a < b)%Q.
Proof.
  unfold Qltb. rewrite negb_true_iff. split.
  - intros H. apply Qnot_le_lt. intros Hle. apply Qle_bool_iff in Hle. congruence.
  - intros H. destruct (Qle_bool b a) eqn:E; [|done].
    apply Qle_bool_iff in E. by apply Qlt_not_le in H.
Qed.

Lemma fl_gtb_add_zero x r : fl_gtb (fl_add x (Fin 0)) r = fl_gtb x r.
Proof.
  destruct x; simpl; try done.
  apply eq_true_iff_eq. rewrite !Qltb_lt. by rewrite Qplus_0_r.
Qed.

Lemma cumsum_from_app acc l1 l2 :
  cumsum_from acc (l1 ++ l2)
  = cumsum_from acc l1 ++ cumsum_from (foldl fl_add acc l1) l2.
Proof.
  revert acc; induction l1 as [|x l1 IH]; intros acc; simpl; [done|].
  by rewrite IH.
Qed.

Lemma length_cumsum_from acc l : length (cumsum_from acc l) = length l.
Proof. revert acc; induction l; intros acc; simpl; auto. Qed.

Lemma length_cumsum l : length (cumsum l) = length l.
Proof. destruct l; simpl; [done|]. by rewrite length_cumsum_from. Qed.

Lemma cumsum_from_last acc l :
  last (acc :: cumsum_from acc l) = Some (foldl fl_add acc l).
Proof.
  revert acc; induction l as [|x l IH]; intros acc; [done|].
  simpl cumsum_from. rewrite last_cons_cons. apply IH.
Qed.

Lemma cumsum_from_zeros_gtb acc m r :
  Forall (fun c => fl_gtb c r = fl_gtb acc r)
         (cumsum_from acc (replicate m (Fin 0))).
Proof.
  revert acc; induction m as [|m IH]; intros acc; simpl; constructor.
  - apply fl_gtb_add_zero.
  - eapply Forall_impl; [apply IH|]. simpl. intros c ->. apply fl_gtb_add_zero.
Qed.

(** The draw never lands in the zero padding behind a non-empty row. *)
Lemma find_true_padded (p : list fl) m r :
  p <> [] ->
  default 0 (find_true 0 (map (fun c => fl_gtb c r)
                              (cumsum (p ++ replicate m (Fin 0)))))
  = default 0 (find_true 0 (map (fun c => fl_gtb c r) (cumsum p))) /\
  default 0 (find_true 0 (map (fun c => fl_gtb c r) (cumsum p))) < length p.
Proof.
  destruct p as [|x p]; [done|]. intros _. simpl.
  rewrite cumsum_from_app, map_app.
  destruct (fl_gtb x r) eqn:Ex; simpl; [split; [done|lia]|].
  rewrite find_true_app.
  destruct (find_true 1 (map (fun c => fl_gtb c r) (cumsum_from x p))) as [k|] eqn:E.
  - split; [done|]. apply find_true_bounds in E.
    rewrite length_map, length_cumsum_from in E. simpl. lia.
  - split; [|simpl; lia].
    assert (find_true (1 + length (map (fun c => fl_gtb c r) (cumsum_from x p)))
              (map (fun c => fl_gtb c r)
                 (cumsum_from (foldl fl_add x p) (replicate m (Fin 0)))) = None) as ->; [|done].
    apply find_true_None. apply Forall_fmap.
    eapply Forall_impl; [apply cumsum_from_zeros_gtb|]. simpl. intros c ->.
    apply find_true_None in E.
    pose proof (cumsum_from_last x p) as Hlast.
    destruct p as [|y p]; simpl in *; [by simplify_eq|].
    apply last_Some_elem_of in Hlast.
    change (Forall (fun b => b = false)
              (map (fun c => fl_gtb c r)
                 (fl_add x y :: cumsum_from (fl_add x y) p))) in E.
    rewrite Forall_fmap, Forall_forall in E. by apply E.
Qed.

(** ** The random condition *)

Lemma zip_with_seq {A B} (f : A -> Q -> B) (u : nat -> Q) l : forall a,
  zip_with f l (map u (seq a (length l))) = imap (fun i x => f x (u (a + i))) l.
Proof.
  induction l as [|x l IH]; intros a; simpl; [done|].
  rewrite Nat.add_0_r. f_equal. rewrite IH. apply imap_ext.
  intros i y _. simpl. by rewrite Nat.add_succ_r.
Qed.

Lemma random_choice_arange_Ok n size draw :
  0 < n ->
  random_choice_arange n size draw
  = Ok (map (fun i => draw i mod n) (seq 0 size)).
Proof.
  intros Hn. unfold random_choice_arange. apply mapM_ext_Ok.
  apply Forall_forall. intros i _. unfold random_choice.
  destruct (seq 0 n) as [|y l] eqn:E.
  { apply (f_equal length) in E. rewrite length_seq in E. simpl in E. lia. }
  rewrite <- E, length_seq. unfold getitem.
  by rewrite lookup_seq_lt by (apply Nat.mod_upper_bound; lia).
Qed.

Lemma setitem_fancy_zeros w js :
  Forall (fun j => j < w) js ->
  setitem_fancy (np_zeros2 0%Q (length js) w) js 1%Q
  = Ok (mk_ndarray2 w (map (fun j => <[j := 1%Q]> (replicate w 0%Q)) js)).
Proof.
  intros H. unfold setitem_fancy, np_zeros2; simpl.
  rewrite (mapM_ext_Ok _ (fun rj => <[rj.2 := 1%Q]> rj.1)).
  - simpl. do 2 f_equal. clear H. induction js as [|j js IH]; simpl; [done|].
    by rewrite IH.
  - apply Forall_forall. intros [row j] Hin. simpl.
    apply elem_of_zip_r in Hin. rewrite Forall_forall in H.
    specialize (H _ Hin). by destruct (Nat.ltb_spec j w); [|lia].
Qed.

Lemma setitem_fancy_out_of_range w js :
  Exists (fun j => w <= j) js ->
  raises (setitem_fancy (np_zeros2 0%Q (length js) w) js 1%Q).
Proof.
  intros (j & Hin & Hj)%Exists_exists. unfold setitem_fancy, np_zeros2; simpl.
  assert (raises (mapM (fun rj : list Q * nat =>
                          if rj.2 <? w then Ok (<[rj.2 := 1%Q]> rj.1)
                          else Raise IndexError)
                       (zip (replicate (length js) (replicate w 0%Q)) js))) as [e He].
  { apply (mapM_raises _ _ (replicate w 0%Q, j)).
    - apply list_elem_of_lookup in Hin as [i Hi]. apply list_elem_of_lookup.
      exists i. apply lookup_zip_with_Some. eexists _, _. split; [done|].
      split; [|done]. apply lookup_replicate_2. by eapply lookup_lt_Some.
    - simpl. destruct (Nat.ltb_spec j w); [lia|]. by eexists. }
  rewrite He. by exists e.
Qed.

Lemma cond_starts_lookup dims : forall acc c d,
  dims !! c = Some d ->
  cond_starts acc dims !! c = Some (acc + sum_list (take c dims)) /\
  sum_list (take c dims) + d <= sum_list dims.
Proof.
  induction dims as [|x dims IH]; intros acc c d; [done|].
  destruct c as [|c]; simpl.
  - intros [= ->]. split; [f_equal; lia|lia].
  - intros H. destruct (IH (acc + x) c d H) as [H1 H2]. rewrite H1.
    split; [f_equal; lia|lia].
Qed.

Section constructed.
Context (np_log : Q -> fl) (data : ndarray2 Q)
        (output_info : list (list SpanInfo)) (log_frequency : bool).
Hypothesis HI1 : total_width output_info = shape1 data.

Let s := sampler_of np_log data output_info log_frequency.
Let dims := discrete_dims output_info.
Let spans := discrete_spans output_info 0.

Lemma spans_dims c st d :
  spans !! c = Some (st, d) -> dims !! c = Some d.
Proof.
  intros H. unfold dims. rewrite (discrete_dims_spans _ 0), list_lookup_fmap.
  fold spans. by rewrite H.
Qed.

Lemma dims_spans c d :
  dims !! c = Some d -> exists st, spans !! c = Some (st, d).
Proof.
  unfold dims. rewrite (discrete_dims_spans _ 0), list_lookup_fmap.
  fold spans. destruct (spans !! c) as [[st d']|]; simpl; [|done].
  intros [= ->]. by exists st.
Qed.

Lemma span_in_matrix c st d :
  spans !! c = Some (st, d) -> st + d <= shape1 data /\ d <= max_list dims.
Proof.
  intros H. split.
  - apply list_elem_of_lookup_2, discrete_spans_bound in H. lia.
  - apply max_list_elem_of_le. eapply list_elem_of_lookup_2, spans_dims, H.
Qed.

Lemma prob_row_lookup c st d :
  spans !! c = Some (st, d) ->
  rows (_discrete_column_category_prob s) !! c
  = Some (category_prob_of np_log log_frequency (col_sums data st (st + d))
          ++ replicate (max_list dims - d) (Fin 0)) /\
  length (category_prob_of np_log log_frequency (col_sums data st (st + d))) = d.
Proof.
  intros H. simpl. rewrite list_lookup_fmap. fold spans. rewrite H. simpl.
  split; [done|]. rewrite length_category_prob_of, length_col_sums.
  apply span_in_matrix in H. lia.
Qed.

Lemma choice_of_lt c st d r :
  spans !! c = Some (st, d) -> 1 <= d -> choice_of s c r < d.
Proof.
  intros H Hd. destruct (prob_row_lookup _ _ _ H) as [Hrow Hlen].
  unfold choice_of. rewrite (nth_lookup_Some _ _ _ _ Hrow).
  match goal with |- context [cumsum (?p ++ _)] => set (P := p) in * end.
  assert (P <> []) as HP by (intros HP; rewrite HP in Hlen; simpl in Hlen; lia).
  destruct (find_true_padded P (max_list dims - d) r HP) as [-> Hlt]. lia.
Qed.

Lemma random_choice_prob_index_Ok ids u :
  Forall (fun c => c < length dims) ids ->
  0 < max_list dims ->
  _random_choice_prob_index s ids u
  = Ok (imap (fun i c => choice_of s c (u i)) ids).
Proof.
  intros Hids Hmax. unfold _random_choice_prob_index.
  set (R := rows (_discrete_column_category_prob s)).
  assert (forall c, c < length dims ->
            exists row, R !! c = Some row /\ length row = max_list dims) as HR.
  { intros c Hc. apply lookup_lt_is_Some_2 in Hc as [d Hd].
    destruct (dims_spans _ _ Hd) as [st Hsp].
    destruct (prob_row_lookup _ _ _ Hsp) as [Hrow Hlen].
    eexists. split; [exact Hrow|]. rewrite length_app, Hlen, length_replicate.
    apply span_in_matrix in Hsp. lia. }
  rewrite (mapM_ext_Ok _ (fun c => nth c R [])).
  2:{ eapply Forall_impl; [exact Hids|]. simpl. intros c Hc.
      destruct (HR c Hc) as (row & Hrow & _). unfold getitem.
      by rewrite Hrow, (nth_lookup_Some _ _ _ _ Hrow). }
  simpl. unfold argmax_axis1. simpl.
  destruct (Nat.eqb_spec (max_list (discrete_dims output_info)) 0) as [Hz|_].
  { fold dims in Hz. lia. }
  rewrite (zip_with_seq _ u _ 0), imap_fmap.
  rewrite (mapM_ext_Ok _ (fun l => default 0 (find_true 0 l))).
  - f_equal. rewrite fmap_imap. by apply imap_ext.
  - apply Forall_forall. intros l (i & c & -> & Hi)%elem_of_lookup_imap.
    simpl. apply argmax_bool.
    rewrite Forall_forall in Hids.
    destruct (HR c) as (row & Hrow & Hlen);
      [by eapply Hids, list_elem_of_lookup_2|].
    rewrite (nth_lookup_Some _ _ _ _ Hrow).
    intros Hnil. apply (f_equal length) in Hnil.
    rewrite length_map, length_cumsum in Hnil. simpl in Hnil. lia.
Qed.
End constructed.

Lemma max_list_pos dims :
  dims <> [] -> Forall (fun d => 1 <= d) dims -> 0 < max_list dims.
Proof.
  intros Hne H. destruct dims as [|d dims]; [done|].
  apply Forall_cons in H as [Hd _]. simpl. lia.
Qed.

(** C4, as amended: when every discrete column has at least one category,
    [sample_condvec] returns, for every batch size and every random draw, a
    conditioning vector and a mask of the stated shapes whose rows are
    one-hot at [cond_st[col] + category] and at [col], for the column and
    category ids returned for that row. *)
Theorem sample_condvec_one_hot np_log data output_info log_frequency s :
  __init__ np_log data output_info log_frequency = Ok s ->
  0 < _n_discrete_columns s ->
  Forall (fun d => 1 <= d) (_discrete_column_n_category s) ->
  forall b col_draw u, condvec_result s b col_draw u.
Proof.
  intros [HI1 ->]%init_inv Hn Hdims b col_draw u.
  set (s := sampler_of np_log data output_info log_frequency) in *.
  set (dims := discrete_dims output_info) in *.
  change (_n_discrete_columns s) with (length dims) in Hn.
  change (_discrete_column_n_category s) with dims in Hdims.
  set (ids := map (fun i => col_draw i mod length dims) (seq 0 b)).
  set (cats := imap (fun i c => choice_of s c (u i)) ids).
  set (cid := zip_with Nat.add (map (fun c => nth c (cond_starts 0 dims) 0) ids) cats).
  assert (length ids = b) as Hlen by (unfold ids; by rewrite length_map, length_seq).
  assert (Forall (fun c => c < length dims) ids) as Hids.
  { apply Forall_fmap, Forall_forall. intros i _. simpl.
    apply Nat.mod_upper_bound. lia. }
  assert (0 < max_list dims) as Hmax.
  { apply max_list_pos; [|done]. intros E. rewrite E in Hn. simpl in Hn. lia. }
  assert (length cats = b) as Hlcats by (unfold cats; by rewrite length_imap).
  assert (length cid = b) as Hlcid.
  { unfold cid. rewrite length_zip_with, length_map. lia. }
  assert (forall i c, ids !! i = Some c ->
            exists d st, dims !! c = Some d /\
              cond_starts 0 dims !! c = Some st /\
              cats !! i = Some (choice_of s c (u i)) /\
              cid !! i = Some (st + choice_of s c (u i)) /\
              st + choice_of s c (u i) < sum_list dims) as Hrow.
  { intros i c Hi.
    assert (c < length dims) as Hc
      by (rewrite Forall_forall in Hids; by eapply Hids, list_elem_of_lookup_2).
    apply lookup_lt_is_Some_2 in Hc as [d Hd].
    destruct (cond_starts_lookup dims 0 c d Hd) as [Hst Hsum].
    destruct (dims_spans output_info c d Hd) as [st Hsp].
    assert (1 <= d) as Hd1
      by (rewrite Forall_forall in Hdims; by eapply Hdims, list_elem_of_lookup_2).
    pose proof (choice_of_lt np_log data output_info log_frequency HI1 c st d
                  (u i) Hsp Hd1) as Hlt. fold s in Hlt.
    exists d, (0 + sum_list (take c dims)).
    assert (cats !! i = Some (choice_of s c (u i))) as Hcat
      by (unfold cats; by rewrite list_lookup_imap, Hi).
    repeat split; try done; [|simpl; lia].
    unfold cid. apply lookup_zip_with_Some. eexists _, _. split; [done|].
    split; [|exact Hcat].
    by rewrite list_lookup_fmap, Hi; simpl; rewrite (nth_lookup_Some _ _ _ _ Hst). }
  assert (sample_condvec s b col_draw u
          = Ok (Some (mk_ndarray2 (sum_list dims)
                        (map (fun j => <[j := 1%Q]> (replicate (sum_list dims) 0%Q)) cid),
                      mk_ndarray2 (length dims)
                        (map (fun j => <[j := 1%Q]> (replicate (length dims) 0%Q)) ids),
                      ids, cats))) as Heq.
  { unfold sample_condvec.
    change (_n_discrete_columns s) with (length dims).
    change (_n_categories s) with (sum_list dims).
    change (_discrete_column_cond_st s) with (cond_starts 0 dims).
    destruct (Nat.eqb_spec (length dims) 0) as [?|_]; [lia|].
    rewrite random_choice_arange_Ok by done. simpl bind. fold ids.
    rewrite <- Hlen at 1.
    rewrite setitem_fancy_zeros by done. simpl bind.
    unfold s at 1. rewrite random_choice_prob_index_Ok by done. fold s. simpl bind.
    rewrite (mapM_ext_Ok _ (fun c => nth c (cond_starts 0 dims) 0)).
    2:{ eapply Forall_impl; [exact Hids|]. simpl. intros c Hc.
        apply lookup_lt_is_Some_2 in Hc as [d Hd].
        destruct (cond_starts_lookup dims 0 c d Hd) as [Hst _].
        unfold getitem. by rewrite Hst, (nth_lookup_Some _ _ _ _ Hst). }
    simpl bind. fold cats. fold cid. rewrite <- Hlcid at 1.
    rewrite setitem_fancy_zeros; [done|].
    apply Forall_forall. intros j [i Hi]%list_elem_of_lookup.
    assert (i < length ids) as Hlt by (rewrite Hlen, <- Hlcid; by eapply lookup_lt_Some).
    apply lookup_lt_is_Some_2 in Hlt as [c Hc].
    destruct (Hrow i c Hc) as (d & st & _ & _ & _ & Hcid & Hb). by simplify_eq. }
  unfold condvec_result. eexists _, _, _, _. split; [exact Heq|]. simpl.
  rewrite !length_map.
  repeat split; try done.
  intros i Hi. rewrite <- Hlen in Hi.
  apply lookup_lt_is_Some_2 in Hi as [c Hc].
  destruct (Hrow i c Hc) as (d & st & Hd & Hst & Hcat & Hcid & Hb).
  exists c, (choice_of s c (u i)), st. eexists _, _.
  split; [done|]. split; [done|]. split; [done|].
  rewrite !list_lookup_fmap, Hcid, Hc. simpl.
  split; [done|]. split; [by apply one_hot_at_insert|]. split; [done|].
  apply one_hot_at_insert. by eapply lookup_lt_Some.
Qed.

Lemma sample_condvec_one_hot_witness :
  __init__ log_unused data_a [softmax 2] false = Ok sampler_a /\
  0 < _n_discrete_columns sampler_a /\
  Forall (fun d => 1 <= d) (_discrete_column_n_category sampler_a) /\
  condvec_result sampler_a 2 (fun i => i) (fun _ => 1 # 4).
Proof.
  assert (__init__ log_unused data_a [softmax 2] false = Ok sampler_a) as Hs
    by reflexivity.
  assert (0 < _n_discrete_columns sampler_a) as Hn by (simpl; lia).
  assert (Forall (fun d => 1 <= d) (_discrete_column_n_category sampler_a)) as Hd
    by (repeat constructor).
  split; [exact Hs|]. split; [exact Hn|]. split; [exact Hd|].
  exact (sample_condvec_one_hot _ _ _ _ _ Hs Hn Hd 2 (fun i => i) (fun _ => 1 # 4)).
Defined.

(** C4 as stated fails on a layout with a discrete column of width zero:
    the sampler is constructed, has two discrete columns, and the call
    raises [IndexError] when the empty column is drawn. *)
Lemma sample_condvec_zero_width_column :
  __init__ log_unused data_a layout_zero_width false = Ok sampler_zero_width /\
  0 < _n_discrete_columns sampler_zero_width /\
  sample_condvec sampler_zero_width 1 (fun _ => 1) (fun _ => 0%Q)
  = Raise IndexError /\
  ~ condvec_result sampler_zero_width 1 (fun _ => 1) (fun _ => 0%Q).
Proof.
  assert (sample_condvec sampler_zero_width 1 (fun _ => 1) (fun _ => 0%Q)
          = Raise IndexError) as E by reflexivity.
  split; [reflexivity|]. split; [simpl; lia|]. split; [exact E|].
  intros (cond & mask & ids & cats & H & _). rewrite E in H. discriminate.
Qed.

(** ** The categorical draw *)

Lemma first_exceeding_find cs r k :
  find_true 0 (map (fun c => fl_gtb c r) cs) = Some k -> first_exceeding cs r k.
Proof.
  intros [H1 H2]%find_true_Some. rewrite Nat.sub_0_r in *.
  rewrite list_lookup_fmap in H1. split.
  - destruct (cs !! k) as [c|]; simpl in H1; [|done]. exists c. split; [done|].
    by simplify_eq.
  - intros j c Hj Hc. specialize (H2 j Hj).
    rewrite list_lookup_fmap, Hc in H2. simpl in H2. by simplify_eq.
Qed.

Lemma none_exceeds_find cs r :
  find_true 0 (map (fun c => fl_gtb c r) cs) = None ->
  forall j x, cs !! j = Some x -> fl_gtb x r = false.
Proof.
  intros H%find_true_None j x Hx. rewrite Forall_fmap, Forall_forall in H.
  by eapply H, list_elem_of_lookup_2.
Qed.

(** The bound owes nothing to the exactness of the model's addition: for
    every addition under which adding zero leaves the comparison with the
    draw unchanged, the index drawn on a row that ends in zero padding is
    below the length of the part before the padding. *)
Lemma cumsum_from_with_app add acc l1 l2 :
  cumsum_from_with add acc (l1 ++ l2)
  = cumsum_from_with add acc l1 ++ cumsum_from_with add (foldl add acc l1) l2.
Proof.
  revert acc; induction l1 as [|x l1 IH]; intros acc; simpl; [done|].
  by rewrite IH.
Qed.

Lemma cumsum_from_with_last add acc l :
  last (acc :: cumsum_from_with add acc l) = Some (foldl add acc l).
Proof.
  revert acc; induction l as [|x l IH]; intros acc; [done|].
  simpl cumsum_from_with. rewrite last_cons_cons. apply IH.
Qed.

Lemma length_cumsum_from_with add acc l :
  length (cumsum_from_with add acc l) = length l.
Proof. revert acc; induction l; intros acc; simpl; auto. Qed.

Lemma cumsum_with_fl_add l : cumsum_with fl_add l = cumsum l.
Proof.
  destruct l as [|x l]; simpl; [done|]. f_equal.
  revert x; induction l as [|y l IH]; intros x; simpl; [done|]. by rewrite IH.
Qed.

Lemma draw_index_with_below_padding add (p : list fl) m r :
  (forall x, fl_gtb (add x (Fin 0)) r = fl_gtb x r) ->
  p <> [] ->
  draw_index_with add (p ++ replicate m (Fin 0)) r < length p.
Proof.
  intros Hzero Hp. unfold draw_index_with.
  destruct p as [|x p]; [done|]. simpl.
  rewrite cumsum_from_with_app, map_app.
  destruct (fl_gtb x r) eqn:Ex; simpl; [lia|].
  rewrite find_true_app.
  destruct (find_true 1 (map (fun c => fl_gtb c r) (cumsum_from_with add x p)))
    as [k|] eqn:E.
  - apply find_true_bounds in E.
    rewrite length_map, length_cumsum_from_with in E. simpl. lia.
  - assert (find_true
              (1 + length (map (fun c => fl_gtb c r) (cumsum_from_with add x p)))
              (map (fun c => fl_gtb c r)
                 (cumsum_from_with add (foldl add x p) (replicate m (Fin 0))))
            = None) as ->; [|simpl; lia].
    apply find_true_None. apply Forall_fmap.
    assert (fl_gtb (foldl add x p) r = false) as Hlast.
    { apply find_true_None in E.
      pose proof (cumsum_from_with_last add x p) as Hl.
      apply last_Some_elem_of in Hl.
      apply elem_of_cons in Hl as [Heq|Hin]; [by rewrite Heq|].
      rewrite Forall_fmap, Forall_forall in E. by apply E. }
    clear E. revert Hlast. generalize (foldl add x p). clear -Hzero.
    induction m as [|m IH]; intros acc Hacc; simpl; constructor.
    + simpl. by rewrite Hzero.
    + apply IH. by rewrite Hzero.
Qed.

(** Whatever the addition and the row, the index is that of the first
    cumulative entry above the draw, or 0 when there is none. *)
Lemma draw_index_with_first_or_zero add row r :
  first_exceeding (cumsum_with add row) r (draw_index_with add row r) \/
  (draw_index_with add row r = 0 /\
   forall j x, cumsum_with add row !! j = Some x -> fl_gtb x r = false).
Proof.
  unfold draw_index_with.
  destruct (find_true 0 (map (fun x => fl_gtb x r) (cumsum_with add row)))
    as [k|] eqn:Ek; simpl.
  - left. by apply first_exceeding_find.
  - right. split; [done|]. by apply none_exceeds_find.
Qed.




(** ** Stored probabilities *)

Lemma fl_sum_Fin ls : fl_sum (map Fin ls) = Fin (Qsum ls).
Proof.
  unfold fl_sum. induction ls as [|l ls IH]; simpl; [done|]. by rewrite IH.
Qed.

Lemma Qsum_nonneg ls : Forall (fun l => (0 <= l)%Q) ls -> (0 <= Qsum ls)%Q.
Proof.
  induction 1 as [|l ls Hl _ IH]; simpl; [apply Qle_refl|].
  rewrite <- (Qplus_0_r 0). by apply Qplus_le_compat.
Qed.

Lemma Qsum_scale ls t : (Qsum (map (fun l => l / t) ls) == Qsum ls / t)%Q.
Proof.
  induction ls as [|l ls IH]; simpl.
  - unfold Qdiv. by rewrite Qmult_0_l.
  - rewrite IH. unfold Qdiv. by rewrite Qmult_plus_distr_l.
Qed.

Lemma normalise_Fin ls :
  Forall (fun l => (0 <= l)%Q) ls -> (0 < Qsum ls)%Q ->
  let p := map (fun x => fl_div x (fl_sum (map Fin ls))) (map Fin ls) in
  fl_eq (fl_sum p) (Fin 1) /\ Forall fl_nonneg p.
Proof.
  intros Hnn Hpos. simpl. rewrite fl_sum_Fin. set (t := Qsum ls) in *.
  assert (~ (t == 0)%Q) as Hne by (intros E; rewrite E in Hpos; by apply Qlt_irrefl in Hpos).
  assert (Qeq_bool t 0 = false) as Hb.
  { destruct (Qeq_bool t 0) eqn:E; [|done]. by apply Qeq_bool_iff in E. }
  rewrite map_map. simpl. rewrite Hb.
  rewrite <- (map_map (fun l => (l / t)%Q) Fin).
  split.
  - rewrite fl_sum_Fin. simpl. rewrite Qsum_scale. fold t.
    unfold Qdiv. by apply Qmult_inv_r.
  - apply Forall_fmap, Forall_fmap. eapply Forall_impl; [exact Hnn|].
    simpl. intros l Hl. unfold Qdiv. apply Qmult_le_0_compat; [done|].
    apply Qinv_le_0_compat. by apply Qlt_le_weak.
Qed.

Lemma log_values (np_log : Q -> fl) freq :
  (forall q, (1 <= q)%Q ->
     exists l, np_log q = Fin l /\ (0 <= l)%Q /\ ((1 < q)%Q -> (0 < l)%Q)) ->
  Forall (fun f => (0 <= f)%Q) freq ->
  exists ls,
    map (fun f => np_log (f + 1)%Q) freq = map Fin ls /\
    Forall (fun l => (0 <= l)%Q) ls /\
    ((0 < Qsum freq)%Q -> (0 < Qsum ls)%Q).
Proof.
  intros Hlog. induction 1 as [|f freq Hf _ (ls & Hls & Hnn & Hpos)].
  - exists []. simpl. by repeat split.
  - destruct (Hlog (f + 1)%Q) as (l & Hl & Hl0 & Hl1).
    { rewrite <- (Qplus_0_l 1) at 1. apply Qplus_le_compat; [done|apply Qle_refl]. }
    exists (l :: ls). simpl. rewrite Hl, Hls. split; [done|].
    split; [by constructor|]. intros Hsum.
    pose proof (Qsum_nonneg ls Hnn) as Hls0.
    destruct (Qlt_le_dec 0 f) as [Hfpos|Hfle].
    + assert (0 < l)%Q as Hlpos.
      { apply Hl1. rewrite <- (Qplus_0_l 1) at 1. by apply Qplus_lt_le_compat; [|apply Qle_refl]. }
      rewrite <- (Qplus_0_r 0). by apply Qplus_lt_le_compat.
    + assert (0 < Qsum freq)%Q as Hrest.
      { apply Qlt_le_trans with (f + Qsum freq)%Q; [done|].
        rewrite <- (Qplus_0_l (Qsum freq)) at 2.
        apply Qplus_le_compat; [done|apply Qle_refl]. }
      rewrite Qplus_comm, <- (Qplus_0_r 0).
      apply Qplus_lt_le_compat; [by apply Hpos|done].
Qed.

(** Normalisation in exact arithmetic: from frequencies that are
    non-negative with a positive total, the quotients by the total sum to 1
    and none is negative. *)
Lemma normalised_row_exact np_log data output_info log_frequency s c st d :
  __init__ np_log data output_info log_frequency = Ok s ->
  discrete_spans output_info 0 !! c = Some (st, d) ->
  Forall (fun f => (0 <= f)%Q) (col_sums data st (st + d)) ->
  (0 < Qsum (col_sums data st (st + d)))%Q ->
  (log_frequency = true ->
   forall q, (1 <= q)%Q ->
     exists l, np_log q = Fin l /\ (0 <= l)%Q /\ ((1 < q)%Q -> (0 < l)%Q)) ->
  exists row,
    rows (_discrete_column_category_prob s) !! c = Some row /\
    _discrete_column_n_category s !! c = Some d /\
    length row = shape1 (_discrete_column_category_prob s) /\
    take d row
    = (let freq := col_sums data st (st + d) in
       let g := if log_frequency then map (fun f => np_log (f + 1)%Q) freq
                else map Fin freq in
       map (fun x => fl_div x (fl_sum g)) g) /\
    fl_eq (fl_sum (take d row)) (Fin 1) /\
    Forall fl_nonneg row /\
    forall j, d <= j -> j < shape1 (_discrete_column_category_prob s) ->
              row !! j = Some (Fin 0).
Proof.
  intros [HI1 ->]%init_inv Hsp Hnn Hpos Hlog.
  destruct (prob_row_lookup np_log data output_info log_frequency HI1 c st d Hsp)
    as [Hrow Hlen].
  pose proof (span_in_matrix data output_info HI1 c st d Hsp) as [_ Hle].
  eexists. split; [exact Hrow|].
  split; [by eapply spans_dims|].
  split; [rewrite length_app, Hlen, length_replicate; simpl; lia|].
  rewrite !(take_app_length' _ _ d (eq_sym Hlen)).
  split; [done|].
  assert (exists ls,
            category_prob_of np_log log_frequency (col_sums data st (st + d))
            = map (fun x => fl_div x (fl_sum (map Fin ls))) (map Fin ls) /\
            Forall (fun l => (0 <= l)%Q) ls /\ (0 < Qsum ls)%Q) as (ls & Hcp & Hls & Hsum).
  { unfold category_prob_of. destruct log_frequency.
    - destruct (log_values np_log _ (Hlog eq_refl) Hnn) as (ls & -> & Hls & Hsum).
      exists ls. split; [done|]. split; [done|]. by apply Hsum.
    - by eexists. }
  rewrite Hcp. destruct (normalise_Fin ls Hls Hsum) as [H1 H2].
  split; [exact H1|]. split.
  - apply Forall_app. split; [exact H2|].
    apply Forall_replicate. simpl. apply Qle_refl.
  - intros j Hj1 Hj2. simpl in Hj2.
    rewrite lookup_app_r; rewrite length_map, length_map.
    + apply lookup_replicate_2.
      assert (length ls = d); [|lia].
      rewrite <- Hlen, Hcp. by rewrite !length_map.
    + assert (length ls = d); [|lia].
      rewrite <- Hlen, Hcp. by rewrite !length_map.
Qed.

Lemma log_tangent_sign q :
  (1 <= q)%Q ->
  exists l, log_tangent q = Fin l /\ (0 <= l)%Q /\ ((1 < q)%Q -> (0 < l)%Q).
Proof.
  intros Hq. exists (q - 1)%Q. split; [done|]. split.
  - by apply Qle_minus_iff in Hq.
  - intros Hq1. by apply Qlt_minus_iff in Hq1.
Qed.

(** C7 as stated fails on an empty training matrix: every frequency is 0,
    the normalisation divides 0 by 0, and the stored row is NaN throughout. *)
Lemma category_prob_empty_training_data :
  __init__ log_unused data_empty [softmax 2] false = Ok sampler_empty /\
  rows (_discrete_column_category_prob sampler_empty) !! 0 = Some [NaN; NaN] /\
  _discrete_column_n_category sampler_empty !! 0 = Some 2 /\
  ~ fl_eq (fl_sum (take 2 [NaN; NaN])) (Fin 1) /\
  ~ Forall fl_nonneg [NaN; NaN].
Proof.
  split; [reflexivity|]. split; [reflexivity|]. split; [reflexivity|].
  split; [simpl; tauto|]. by intros [H _]%Forall_cons.
Qed.

(** ** What [sample_original_condvec] computes *)

Lemma argmax_from_range {A} (gt : A -> A -> bool) bi best i l :
  argmax_from gt bi best i l = bi \/
  i <= argmax_from gt bi best i l < i + length l.
Proof.
  revert bi best i; induction l as [|x l IH]; intros bi best i; simpl; [by left|].
  destruct (gt x best).
  - right. destruct (IH i x (S i)) as [->|?]; lia.
  - destruct (IH bi best (S i)) as [->|?]; [by left|right; lia].
Qed.

Lemma argmax_lt {A} (gt : A -> A -> bool) l k :
  argmax gt l = Ok k -> k < length l.
Proof.
  destruct l as [|x l]; simpl; [done|]. intros [= <-].
  destruct (argmax_from_range gt 0 x 1 l) as [->|?]; lia.
Qed.

Lemma original_condvec_loop_cons self row_draw col_draw i range cond :
  original_condvec_loop self row_draw col_draw (i :: range) cond
  = (p <- original_position self (row_draw i) (col_draw i) ;;
     cond' <- setitem2 cond i p 1%Q ;;
     original_condvec_loop self row_draw col_draw range cond').
Proof.
  simpl. unfold original_position.
  repeat match goal with
         | |- context [bind ?m _] =>
             lazymatch m with
             | bind _ _ => fail
             | _ => destruct m; simpl; try done
             end
         end.
Qed.

Lemma original_condvec_loop_Ok self row_draw col_draw (pos : nat -> nat) :
  forall m a cond,
    (forall i, a <= i < a + m ->
       original_position self (row_draw i) (col_draw i) = Ok (pos i) /\
       pos i < shape1 cond) ->
    a + m <= length (rows cond) ->
    original_condvec_loop self row_draw col_draw (seq a m) cond
    = Ok (mk_ndarray2 (shape1 cond)
            (take a (rows cond)
             ++ map (fun i => <[pos i := 1%Q]> (nth i (rows cond) [])) (seq a m)
             ++ drop (a + m) (rows cond))).
Proof.
  induction m as [|m IH]; intros a [w R] Hpos Hlen.
  - simpl. by rewrite Nat.add_0_r, take_drop.
  - change (seq a (S m)) with (a :: seq (S a) m).
    rewrite original_condvec_loop_cons. simpl in Hpos, Hlen.
    destruct (Hpos a ltac:(lia)) as [-> Hp]. simpl.
    assert (a < length R) as Ha by lia.
    apply lookup_lt_is_Some_2 in Ha as [row Hrow].
    unfold setitem2, getitem; simpl. rewrite Hrow. simpl.
    destruct (Nat.ltb_spec (pos a) w) as [_|?]; [|lia].
    simpl bind. rewrite IH; simpl.
    + f_equal. f_equal.
      rewrite take_S_insert by (by eapply lookup_lt_Some).
      rewrite <- app_assoc. simpl. f_equal.
      rewrite (nth_lookup_Some _ _ _ _ Hrow). f_equal.
      f_equal.
      * apply map_ext_in. intros i Hi%in_seq.
        by rewrite !nth_lookup, list_lookup_insert_ne by lia.
      * rewrite drop_insert_lt by lia. f_equal. lia.
    + intros i Hi. apply Hpos. lia.
    + rewrite length_insert. lia.
Qed.

(** For a rectangular training matrix with at least one row and discrete
    columns of at least one category, row [i] of the result is one-hot at
    [cond_st[c]] plus the arg-max of the FIRST [n_category[c]] entries of
    the drawn training row: the block read starts at matrix column 0, not
    at column [c]'s own block. *)
Lemma sample_original_condvec_prefix np_log data output_info log_frequency s
  batch row_draw col_draw :
  __init__ np_log data output_info log_frequency = Ok s ->
  rectangular data ->
  0 < length (rows data) ->
  0 < _n_discrete_columns s ->
  Forall (fun d => 1 <= d) (_discrete_column_n_category s) ->
  exists cond,
    sample_original_condvec s batch row_draw col_draw = Ok (Some cond) /\
    shape1 cond = _n_categories s /\ length (rows cond) = batch /\
    forall i, i < batch ->
      exists row d st pick crow,
        rows data !! (row_draw i mod length (rows data)) = Some row /\
        _discrete_column_n_category s !! (col_draw i mod _n_discrete_columns s)
        = Some d /\
        _discrete_column_cond_st s !! (col_draw i mod _n_discrete_columns s)
        = Some st /\
        argmax Q_gt (slice row 0 d) = Ok pick /\
        rows cond !! i = Some crow /\
        one_hot_at (_n_categories s) (st + pick) crow.
Proof.
  intros [HI1 ->]%init_inv Hrect Hrows Hn Hdims.
  set (s := sampler_of np_log data output_info log_frequency) in *.
  set (dims := discrete_dims output_info) in *.
  change (_n_discrete_columns s) with (length dims) in *.
  change (_discrete_column_n_category s) with dims in *.
  change (_n_categories s) with (sum_list dims).
  change (_discrete_column_cond_st s) with (cond_starts 0 dims).
  assert (forall i, exists row d st pick,
            rows data !! (row_draw i mod length (rows data)) = Some row /\
            dims !! (col_draw i mod length dims) = Some d /\
            cond_starts 0 dims !! (col_draw i mod length dims) = Some st /\
            argmax Q_gt (slice row 0 d) = Ok pick /\
            original_position s (row_draw i) (col_draw i) = Ok (pick + st) /\
            pick + st < sum_list dims) as Hstep.
  { intros i.
    assert (row_draw i mod length (rows data) < length (rows data)) as Hr
      by (apply Nat.mod_upper_bound; lia).
    assert (col_draw i mod length dims < length dims) as Hc
      by (apply Nat.mod_upper_bound; lia).
    apply lookup_lt_is_Some_2 in Hr as [row Hrow].
    apply lookup_lt_is_Some_2 in Hc as [d Hd].
    destruct (cond_starts_lookup dims 0 _ d Hd) as [Hst Hsum].
    destruct (dims_spans output_info _ d Hd) as [st0 Hsp].
    pose proof (span_in_matrix data output_info HI1 _ st0 d Hsp) as [Hin _].
    assert (1 <= d) as Hd1
      by (rewrite Forall_forall in Hdims; by eapply Hdims, list_elem_of_lookup_2).
    assert (length row = shape1 data) as Hlrow
      by (unfold rectangular in Hrect; rewrite Forall_forall in Hrect;
          by eapply Hrect, list_elem_of_lookup_2).
    assert (length (slice row 0 d) = d) as Hls.
    { unfold slice. rewrite length_take, length_drop. lia. }
    destruct (argmax Q_gt (slice row 0 d)) as [pick|e] eqn:Ea.
    2:{ destruct (slice row 0 d); simpl in *; [lia|done]. }
    pose proof (argmax_lt _ _ _ Ea) as Hpick. rewrite Hls in Hpick.
    exists row, d, (0 + sum_list (take (col_draw i mod length dims) dims)), pick.
    repeat split; try done; [|simpl; lia].
    unfold original_position, randint.
    change (_n_discrete_columns s) with (length dims).
    change (_data s) with data.
    destruct (Nat.ltb_spec 0 (length (rows data))) as [_|?]; [|lia].
    destruct (Nat.ltb_spec 0 (length dims)) as [_|?]; [|lia].
    simpl. rewrite !Nat.sub_0_r. fold dims.
    unfold getitem. rewrite lookup_replicate_2 by (apply Nat.mod_upper_bound; lia).
    simpl. rewrite Hd. simpl. rewrite Hrow. simpl. rewrite Ea. simpl.
    by rewrite Hst. }
  set (pos := fun i =>
    match original_position s (row_draw i) (col_draw i) with
    | Ok p => p | Raise _ => 0 end).
  unfold sample_original_condvec.
  change (_n_discrete_columns s) with (length dims).
  change (_n_categories s) with (sum_list dims).
  destruct (Nat.eqb_spec (length dims) 0) as [?|_]; [lia|].
  rewrite (original_condvec_loop_Ok s row_draw col_draw pos).
  - simpl. rewrite drop_replicate, Nat.sub_diag. simpl. rewrite app_nil_r.
    eexists. split; [reflexivity|]. simpl.
    split; [done|]. split; [by rewrite length_map, length_seq|].
    intros i Hi. destruct (Hstep i) as (row & d & st & pick & H1 & H2 & H3 & H4 & H5 & H6).
    exists row, d, st, pick. eexists.
    split; [done|]. split; [done|]. split; [done|]. split; [done|].
    rewrite list_lookup_fmap, lookup_seq_lt by done. simpl.
    rewrite nth_lookup, lookup_replicate_2 by done. simpl.
    split; [done|]. unfold pos. rewrite H5.
    replace (st + pick) with (pick + st) by lia. by apply one_hot_at_insert.
  - intros i _. destruct (Hstep i) as (row & d & st & pick & _ & _ & _ & _ & H5 & H6).
    unfold pos. rewrite H5. by simpl.
  - simpl. by rewrite length_replicate.
Qed.

(** * Further properties of the sampler *)

(** ** Which error the constructor raises *)

Lemma first_pass_Ok_fits data info : forall st rid,
  Forall (fun span => ~ pokes_out data span) (discrete_spans info st) ->
  first_pass data info st rid
  = Ok (st + total_width info, rid ++ map (rid_of data) (discrete_spans info st)).
Proof.
  induction info as [|l info IH]; intros st rid; simpl.
  - intros _. unfold total_width; simpl. by rewrite Nat.add_0_r, app_nil_r.
  - unfold total_width; simpl; fold (total_width info).
    destruct (_is_discrete_column l) eqn:E.
    + rewrite (is_discrete_sum_dims _ E). intros [Hfit HF]%Forall_cons.
      unfold pokes_out in Hfit; simpl in Hfit.
      rewrite rid_by_cat_loop_Ok.
      2:{ apply Forall_forall. intros j Hj%elem_of_seq. lia. }
      simpl. rewrite IH by done. rewrite <- app_assoc. simpl.
      do 2 f_equal. lia.
    + intros HF. rewrite IH by done. do 2 f_equal. lia.
Qed.

Lemma first_pass_raises_pokes data info : forall st rid,
  Exists (pokes_out data) (discrete_spans info st) ->
  first_pass data info st rid = Raise IndexError.
Proof.
  induction info as [|l info IH]; intros st rid; simpl.
  - by intros ?%Exists_nil.
  - destruct (_is_discrete_column l) eqn:E; [|apply IH].
    intros [[Hd Hout]|HE]%Exists_cons; simpl in *.
    + rewrite rid_by_cat_loop_raises; [done|].
      apply Exists_exists. exists (dim (span0 l) - 1).
      split; [apply elem_of_seq; lia|lia].
    + destruct (rid_by_cat_loop data st (seq 0 (dim (span0 l))) []) as [r|e] eqn:El;
        simpl; [by apply IH|].
      f_equal. clear -El.
      assert (forall js acc e, rid_by_cat_loop data st js acc = Raise e ->
                               e = IndexError) as Hl.
      { induction js as [|j js IHj]; intros acc e'; simpl; [done|].
        unfold getcol. destruct (st + j <? shape1 data); simpl; [apply IHj|congruence]. }
      eauto.
Qed.

(** X1: when a discrete column with at least one category reaches past the
    last matrix column, the constructor fails while building the row index,
    with [IndexError], before the assertion is reached. *)
Theorem init_block_past_matrix np_log data output_info log_frequency :
  Exists (pokes_out data) (discrete_spans output_info 0) ->
  __init__ np_log data output_info log_frequency = Raise IndexError.
Proof.
  intros H. unfold __init__. by rewrite first_pass_raises_pokes.
Qed.

Lemma init_block_past_matrix_witness :
  Exists (pokes_out data_a) (discrete_spans [continuous 0; softmax 2] 0) /\
  __init__ log_unused data_a [continuous 0; softmax 2] false = Raise IndexError.
Proof.
  assert (Exists (pokes_out data_a) (discrete_spans [continuous 0; softmax 2] 0)) as H.
  { apply Exists_cons_hd. unfold pokes_out. simpl. lia. }
  split; [exact H|]. exact (init_block_past_matrix _ _ _ _ H).
Defined.

(** X2: when no discrete column reaches past the matrix and the span widths
    do not add up to the column count, the constructor fails at the
    assertion: every layout narrower than the matrix, and every layout that
    is too wide only through its non-discrete columns. *)
Theorem init_width_mismatch_assertion np_log data output_info log_frequency :
  Forall (fun span => ~ pokes_out data span) (discrete_spans output_info 0) ->
  total_width output_info <> shape1 data ->
  __init__ np_log data output_info log_frequency = Raise AssertionError.
Proof.
  intros Hfit Hne. unfold __init__. rewrite first_pass_Ok_fits by done. simpl.
  by destruct (Nat.eqb_spec (total_width output_info) (shape1 data)).
Qed.

Lemma init_width_mismatch_assertion_witness :
  Forall (fun span => ~ pokes_out data_mixed span)
         (discrete_spans [softmax 2; continuous 3] 0) /\
  total_width [softmax 2; continuous 3] <> shape1 data_mixed /\
  __init__ log_unused data_mixed [softmax 2; continuous 3] false
  = Raise AssertionError /\
  __init__ log_unused data_mixed [softmax 2] false = Raise AssertionError.
Proof.
  assert (Forall (fun span => ~ pokes_out data_mixed span)
            (discrete_spans [softmax 2; continuous 3] 0)) as H1.
  { apply Forall_cons. split; [unfold pokes_out; simpl; lia|constructor]. }
  assert (total_width [softmax 2; continuous 3] <> shape1 data_mixed) as H2
    by (vm_compute; lia).
  split; [exact H1|]. split; [exact H2|].
  split; [exact (init_width_mismatch_assertion _ _ _ _ H1 H2)|].
  apply init_width_mismatch_assertion.
  - apply Forall_cons. split; [unfold pokes_out; simpl; lia|constructor].
  - vm_compute. lia.
Defined.

(** ** Shapes and offsets of a constructed sampler *)

Lemma sum_list_take_le (l : list nat) a b :
  a <= b -> sum_list (take a l) <= sum_list (take b l).
Proof.
  revert a b; induction l as [|x l IH]; intros a b Hab.
  - by rewrite !take_nil.
  - destruct a as [|a]; simpl; [lia|].
    destruct b as [|b]; [lia|]. simpl. specialize (IH a b). lia.
Qed.

Lemma sum_list_take_S (l : list nat) c d :
  l !! c = Some d -> sum_list (take (S c) l) = sum_list (take c l) + d.
Proof.
  intros H. erewrite take_S_r by done. rewrite sum_list_with_app. simpl. lia.
Qed.

(** X3: every per-column array of a constructed sampler has one entry per
    discrete column of the layout; the category counts are the widths of
    the discrete spans in layout order; the row index holds as many row
    sets for a column as the column has categories; the probability matrix
    is rectangular, as wide as the largest category count. *)
Theorem init_shapes np_log data output_info log_frequency s :
  __init__ np_log data output_info log_frequency = Ok s ->
  _data s = data /\
  _n_discrete_columns s
  = length (filter (fun l => _is_discrete_column l = true) output_info) /\
  _discrete_column_n_category s = discrete_dims output_info /\
  length (_discrete_column_matrix_st s) = _n_discrete_columns s /\
  length (_discrete_column_cond_st s) = _n_discrete_columns s /\
  length (_rid_by_cat_cols s) = _n_discrete_columns s /\
  length (rows (_discrete_column_category_prob s)) = _n_discrete_columns s /\
  shape1 (_discrete_column_category_prob s)
  = max_list (_discrete_column_n_category s) /\
  rectangular (_discrete_column_category_prob s) /\
  forall c d, _discrete_column_n_category s !! c = Some d ->
    exists by_cat, _rid_by_cat_cols s !! c = Some by_cat /\ length by_cat = d.
Proof.
  intros [HI1 ->]%init_inv. simpl.
  split; [done|]. split; [unfold discrete_dims; by rewrite length_map|].
  split; [done|]. split; [by rewrite length_replicate|].
  split; [by rewrite length_cond_starts|].
  assert (length (discrete_spans output_info 0) = length (discrete_dims output_info)) as Hl
    by (by rewrite (discrete_dims_spans _ 0), length_map).
  split; [by rewrite length_map|]. split; [by rewrite length_map|].
  split; [done|]. split.
  - unfold rectangular. simpl. apply Forall_fmap, Forall_forall.
    intros [st d] [c Hc]%list_elem_of_lookup. simpl.
    destruct (prob_row_lookup np_log data output_info log_frequency HI1 c st d Hc)
      as [_ Hlen].
    unfold prob_row_of. simpl. rewrite length_app, Hlen, length_replicate.
    pose proof (span_in_matrix data output_info HI1 c st d Hc). lia.
  - intros c d Hd. destruct (dims_spans output_info c d Hd) as [st Hsp].
    rewrite list_lookup_fmap, Hsp. simpl. eexists. split; [done|].
    unfold rid_of. simpl. by rewrite length_map, length_seq.
Qed.

Lemma init_shapes_witness :
  __init__ log_unused data_mixed layout_mixed false = Ok sampler_mixed /\
  _n_discrete_columns sampler_mixed = 2 /\
  _discrete_column_n_category sampler_mixed = [2; 1] /\
  shape1 (_discrete_column_category_prob sampler_mixed) = 2 /\
  rectangular (_discrete_column_category_prob sampler_mixed).
Proof.
  assert (__init__ log_unused data_mixed layout_mixed false = Ok sampler_mixed) as Hs
    by reflexivity.
  destruct (init_shapes _ _ _ _ _ Hs) as (_ & H1 & H2 & _ & _ & _ & _ & H3 & H4 & _).
  split; [exact Hs|]. split; [exact H1|]. split; [exact H2|].
  split; [exact H3|exact H4].
Defined.

(** X4: the conditioning-vector space is the concatenation of the columns'
    category ranges: column [c] starts at the sum of the category counts of
    the columns before it, its range ends within [n_categories], and
    [n_categories] (what [dim_cond_vec] returns) is the sum of all counts. *)
Theorem cond_offsets_prefix_sums np_log data output_info log_frequency s :
  __init__ np_log data output_info log_frequency = Ok s ->
  dim_cond_vec s = sum_list (_discrete_column_n_category s) /\
  forall c d, _discrete_column_n_category s !! c = Some d ->
    _discrete_column_cond_st s !! c
    = Some (sum_list (take c (_discrete_column_n_category s))) /\
    sum_list (take c (_discrete_column_n_category s)) + d <= dim_cond_vec s.
Proof.
  intros [_ ->]%init_inv. unfold dim_cond_vec. simpl. split; [done|].
  intros c d Hd. by destruct (cond_starts_lookup _ 0 c d Hd) as [-> ?].
Qed.

Lemma cond_offsets_prefix_sums_witness :
  __init__ log_unused data_mixed layout_mixed false = Ok sampler_mixed /\
  dim_cond_vec sampler_mixed = 3 /\
  _discrete_column_cond_st sampler_mixed !! 1 = Some 2.
Proof.
  assert (__init__ log_unused data_mixed layout_mixed false = Ok sampler_mixed) as Hs
    by reflexivity.
  destruct (cond_offsets_prefix_sums _ _ _ _ _ Hs) as [H1 H2].
  split; [exact Hs|]. split; [exact H1|].
  destruct (H2 1 1 eq_refl) as [H3 _]. exact H3.
Defined.

(** X5: a global position determines its condition: two (column, category)
    pairs with in-range categories that map to the same position
    [cond_st[c] + k] are the same pair. *)
Theorem cond_position_injective np_log data output_info log_frequency s
  c1 c2 d1 d2 a1 a2 k1 k2 :
  __init__ np_log data output_info log_frequency = Ok s ->
  _discrete_column_n_category s !! c1 = Some d1 ->
  _discrete_column_n_category s !! c2 = Some d2 ->
  _discrete_column_cond_st s !! c1 = Some a1 ->
  _discrete_column_cond_st s !! c2 = Some a2 ->
  k1 < d1 -> k2 < d2 ->
  a1 + k1 = a2 + k2 ->
  c1 = c2 /\ k1 = k2.
Proof.
  intros [_ ->]%init_inv. simpl.
  set (dims := discrete_dims output_info).
  intros Hd1 Hd2 Ha1 Ha2 Hk1 Hk2 Heq.
  destruct (cond_starts_lookup _ 0 c1 d1 Hd1) as [E1 _].
  destruct (cond_starts_lookup _ 0 c2 d2 Hd2) as [E2 _].
  rewrite E1 in Ha1. rewrite E2 in Ha2. simplify_eq. simpl in Heq.
  pose proof (sum_list_take_S _ _ _ Hd1) as S1.
  pose proof (sum_list_take_S _ _ _ Hd2) as S2.
  destruct (Nat.lt_trichotomy c1 c2) as [Hlt|[->|Hlt]].
  - pose proof (sum_list_take_le dims (S c1) c2 ltac:(lia)). lia.
  - simplify_eq. split; [done|lia].
  - pose proof (sum_list_take_le dims (S c2) c1 ltac:(lia)). lia.
Qed.

Lemma cond_position_injective_witness :
  __init__ log_unused data_mixed layout_mixed false = Ok sampler_mixed /\
  _discrete_column_n_category sampler_mixed !! 1 = Some 1 /\
  _discrete_column_cond_st sampler_mixed !! 1 = Some 2 /\
  0 < 1 /\ 2 + 0 = 2 + 0 /\ 1 = 1 /\ 0 = 0.
Proof.
  assert (__init__ log_unused data_mixed layout_mixed false = Ok sampler_mixed) as Hs
    by reflexivity.
  assert (_discrete_column_n_category sampler_mixed !! 1 = Some 1) as Hd
    by reflexivity.
  assert (_discrete_column_cond_st sampler_mixed !! 1 = Some 2) as Ha
    by reflexivity.
  assert (0 < 1) as Hk by lia.
  split; [exact Hs|]. split; [exact Hd|]. split; [exact Ha|]. split; [exact Hk|].
  split; [reflexivity|].
  exact (cond_position_injective _ _ _ _ _ 1 1 1 1 2 2 0 0 Hs Hd Hd Ha Ha Hk Hk eq_refl).
Defined.

(** ** The row index *)

Lemma nonzero_from_sorted i v :
  increasing (nonzero_from i v) /\
  Forall (fun k => i <= k) (nonzero_from i v).
Proof.
  revert i; induction v as [|x v IH]; intros i; simpl.
  - split; [by intros ? ? ? ? _ ?|constructor].
  - destruct (IH (S i)) as [Hs Hf].
    assert (Forall (fun k => i <= k) (nonzero_from (S i) v)) as Hf'
      by (eapply Forall_impl; [exact Hf|]; simpl; lia).
    destruct (Qeq_bool x 0); [done|]. split; [|by constructor].
    intros [|i0] [|j0] a b Hlt Ha Hb; simpl in *; try lia.
    + simplify_eq. rewrite Forall_forall in Hf.
      apply list_elem_of_lookup_2, Hf in Hb. lia.
    + eapply (Hs i0 j0); [lia|done|done].
Qed.

Lemma nth_nonzero_at (row : list Q) j :
  Qeq_bool (nth j row 0%Q) 0 = false <-> nonzero_at row j.
Proof.
  unfold nonzero_at. rewrite nth_lookup. split.
  - intros H. destruct (row !! j) as [x|] eqn:E; simpl in H; [|done].
    exists x. split; [done|]. intros Hx. apply Qeq_bool_iff in Hx. congruence.
  - intros (x & -> & Hx). simpl.
    destruct (Qeq_bool x 0) eqn:E; [|done]. by apply Qeq_bool_iff in E.
Qed.

Lemma rid_lookup_spec np_log data info lf c o st d :
  discrete_spans info 0 !! c = Some (st, d) -> o < d ->
  exists rid,
    rid_lookup (sampler_of np_log data info lf) c o = Some rid /\
    increasing rid /\
    forall k, k ∈ rid <->
      exists row, rows data !! k = Some row /\ nonzero_at row (st + o).
Proof.
  intros Hsp Ho. unfold rid_lookup. simpl.
  rewrite list_lookup_fmap, Hsp. simpl. unfold rid_of. simpl.
  rewrite list_lookup_fmap, lookup_seq_lt by done. simpl.
  eexists. split; [done|]. split; [apply nonzero_from_sorted|].
  intros k. unfold np_nonzero. rewrite elem_of_nonzero_from, Nat.sub_0_r.
  setoid_rewrite list_lookup_fmap. split.
  - intros (x & _ & Hx & Hnz).
    destruct (rows data !! k) as [row|]; simpl in Hx; [|done]. simplify_eq.
    exists row. split; [done|]. by apply nth_nonzero_at.
  - intros (row & -> & Hnz). simpl. eexists. split; [lia|]. split; [done|].
    by apply nth_nonzero_at.
Qed.

Lemma rid_lookup_None np_log data info lf c o :
  (length (discrete_dims info) <= c \/
   exists d, discrete_dims info !! c = Some d /\ d <= o) ->
  rid_lookup (sampler_of np_log data info lf) c o = None.
Proof.
  unfold rid_lookup. simpl. rewrite list_lookup_fmap.
  intros [Hc|(d & Hd & Ho)].
  - rewrite lookup_ge_None_2; [done|].
    by rewrite <- (length_map snd), <- (discrete_dims_spans info 0).
  - destruct (dims_spans info c d Hd) as [st ->]. simpl.
    apply lookup_ge_None_2. unfold rid_of. simpl.
    by rewrite length_map, length_seq.
Qed.

(** X6: the row set stored for category [o] of a discrete column lists, in
    increasing order and without repetition, exactly the training rows whose
    entry at the category's own matrix column (the column's block start plus
    [o]) is not zero. *)
Theorem row_set_spec np_log data output_info log_frequency s c o st d :
  __init__ np_log data output_info log_frequency = Ok s ->
  discrete_spans output_info 0 !! c = Some (st, d) ->
  o < d ->
  exists rid,
    rid_lookup s c o = Some rid /\
    increasing rid /\
    forall k, k ∈ rid <->
      exists row, rows data !! k = Some row /\ nonzero_at row (st + o).
Proof. intros [_ ->]%init_inv. apply rid_lookup_spec. Qed.

Lemma row_set_spec_witness :
  __init__ log_unused data_mixed layout_mixed false = Ok sampler_mixed /\
  discrete_spans layout_mixed 0 !! 0 = Some (0, 2) /\
  1 < 2 /\
  rid_lookup sampler_mixed 0 1 = Some [1; 2] /\
  exists rid,
    rid_lookup sampler_mixed 0 1 = Some rid /\
    increasing rid /\
    forall k, k ∈ rid <->
      exists row, rows data_mixed !! k = Some row /\ nonzero_at row (0 + 1).
Proof.
  assert (__init__ log_unused data_mixed layout_mixed false = Ok sampler_mixed) as Hs
    by reflexivity.
  assert (discrete_spans layout_mixed 0 !! 0 = Some (0, 2)) as Hsp by reflexivity.
  assert (1 < 2) as Ho by lia.
  split; [exact Hs|]. split; [exact Hsp|]. split; [exact Ho|].
  split; [reflexivity|].
  exact (row_set_spec _ _ _ _ _ 0 1 0 2 Hs Hsp Ho).
Defined.

(** X7: a training row whose block in a discrete column has exactly one
    nonzero entry belongs to exactly one of the column's row sets, the one
    of that entry's category. *)
Theorem row_sets_partition np_log data output_info log_frequency s c st d k row o :
  __init__ np_log data output_info log_frequency = Ok s ->
  discrete_spans output_info 0 !! c = Some (st, d) ->
  rows data !! k = Some row ->
  o < d ->
  (forall j, j < d -> nonzero_at row (st + j) <-> j = o) ->
  forall j rid, rid_lookup s c j = Some rid -> (k ∈ rid <-> j = o).
Proof.
  intros [_ ->]%init_inv Hsp Hrow Ho Hone j rid Hl.
  assert (j < d) as Hj.
  { destruct (Nat.lt_ge_cases j d) as [?|Hge]; [done|].
    rewrite rid_lookup_None in Hl; [done|]. right. exists d.
    split; [by eapply spans_dims|done]. }
  destruct (rid_lookup_spec np_log data output_info log_frequency c j st d Hsp Hj)
    as (rid' & Hl' & _ & Hmem).
  rewrite Hl in Hl'. injection Hl' as <-.
  rewrite Hmem, <- (Hone j Hj). split.
  - intros (row' & Hr & Hnz). by simplify_eq.
  - intros Hnz. by exists row.
Qed.

Lemma row_sets_partition_witness :
  __init__ log_unused data_mixed layout_mixed false = Ok sampler_mixed /\
  rid_lookup sampler_mixed 0 0 = Some [0] /\
  rid_lookup sampler_mixed 0 1 = Some [1; 2] /\
  (2 ∈ [1; 2] <-> 1 = 1).
Proof.
  assert (__init__ log_unused data_mixed layout_mixed false = Ok sampler_mixed) as Hs
    by reflexivity.
  assert (rid_lookup sampler_mixed 0 1 = Some [1; 2]) as Hl by reflexivity.
  split; [exact Hs|]. split; [reflexivity|]. split; [exact Hl|].
  apply (row_sets_partition _ _ _ _ _ 0 0 2 2 [0; 1; 0; 1; 1]%Q 1 Hs
           eq_refl eq_refl ltac:(lia)); [|exact Hl].
  intros j Hj. unfold nonzero_at.
  destruct j as [|[|j]]; simpl; [| |lia].
  - split; [intros (x & [= <-] & Hx); by destruct Hx|discriminate].
  - split; [done|]. intros _. exists 1%Q. split; [done|discriminate].
Defined.

(** ** Edge behaviour of [sample_data] *)

Lemma zip_take {A B} (l : list A) (k : list B) :
  zip l k
  = zip (take (Nat.min (length l) (length k)) l)
        (take (Nat.min (length l) (length k)) k).
Proof.
  revert k; induction l as [|x l IH]; intros [|y k]; simpl; try done.
  f_equal. apply IH.
Qed.

(** X8: [col] and [opt] of different lengths are not an error: the pairs are
    formed by [zip], so the call behaves as on both sequences cut to the
    shorter length, and a successful call returns that many rows. *)
Theorem sample_data_zip_truncates (s : DataSampler) n col opt draw :
  let m := Nat.min (length col) (length opt) in
  sample_data s n (Some col) opt draw
  = sample_data s n (Some (take m col)) (take m opt) draw /\
  forall out, sample_data s n (Some col) opt draw = Ok out -> length out = m.
Proof.
  simpl. split; [by rewrite <- zip_take|].
  intros out (idx & Hloop & Hrows)%bind_Ok.
  apply sample_data_loop_inv in Hloop as (ks & -> & HF2 & _).
  apply mapM_Ok_inv, Forall2_length in Hrows.
  apply Forall2_length in HF2. rewrite length_zip in HF2.
  simpl in Hrows. lia.
Qed.

(** X9: a requested pair whose column id is not a discrete column, or whose
    category id is not below that column's category count, makes the call
    raise. *)
Theorem sample_data_invalid_pair_raises np_log data output_info log_frequency
  s n col opt draw i c o :
  __init__ np_log data output_info log_frequency = Ok s ->
  col !! i = Some c -> opt !! i = Some o ->
  (_n_discrete_columns s <= c \/
   exists d, _discrete_column_n_category s !! c = Some d /\ d <= o) ->
  raises (sample_data s n (Some col) opt draw).
Proof.
  intros Hs Hc Ho Hbad.
  destruct (sample_data s n (Some col) opt draw) as [out|e] eqn:E; [|by exists e].
  assert (is_Ok (sample_data s n (Some col) opt draw)) as Hok by (by exists out).
  eapply sample_data_Some_Ok in Hok; [|done].
  pose proof (zip_lookup_Some _ _ _ _ _ Hc Ho) as Hz.
  destruct (Forall_lookup_1 _ _ _ _ Hok Hz) as (rid & Hl & _). simpl in Hl.
  apply init_inv in Hs as [_ ->]. rewrite rid_lookup_None in Hl; done.
Qed.

Lemma sample_data_invalid_pair_raises_witness :
  __init__ log_unused data_mixed layout_mixed false = Ok sampler_mixed /\
  _discrete_column_n_category sampler_mixed !! 1 = Some 1 /\
  raises (sample_data sampler_mixed 2 (Some [0; 1]) [0; 1] (fun _ => 0)) /\
  raises (sample_data sampler_mixed 1 (Some [2]) [0] (fun _ => 0)).
Proof.
  assert (__init__ log_unused data_mixed layout_mixed false = Ok sampler_mixed) as Hs
    by reflexivity.
  assert (_discrete_column_n_category sampler_mixed !! 1 = Some 1) as Hd
    by reflexivity.
  split; [exact Hs|]. split; [exact Hd|]. split.
  - apply (sample_data_invalid_pair_raises _ _ _ _ _ 2 [0; 1] [0; 1] (fun _ => 0)
             1 1 1 Hs eq_refl eq_refl).
    right. exists 1. split; [exact Hd|lia].
  - apply (sample_data_invalid_pair_raises _ _ _ _ _ 1 [2] [0] (fun _ => 0)
             0 2 0 Hs eq_refl eq_refl).
    left. simpl. lia.
Defined.

(** X10: an unconditioned request for at least one row from an empty
    training matrix raises [ValueError]. *)
Theorem sample_data_unconditioned_empty (s : DataSampler) n opt draw :
  rows (_data s) = [] -> 0 < n ->
  sample_data s n None opt draw = Raise ValueError.
Proof.
  intros Hempty Hn. simpl. rewrite Hempty. simpl.
  destruct n as [|n]; [lia|]. done.
Qed.

Lemma sample_data_unconditioned_empty_witness :
  __init__ log_unused data_empty [softmax 2] false = Ok sampler_empty /\
  rows (_data sampler_empty) = [] /\ 0 < 3 /\
  sample_data sampler_empty 3 None [] (fun i => i) = Raise ValueError.
Proof.
  assert (rows (_data sampler_empty) = []) as H by reflexivity.
  assert (0 < 3) as Hn by lia.
  split; [reflexivity|]. split; [exact H|]. split; [exact Hn|].
  exact (sample_data_unconditioned_empty sampler_empty 3 [] (fun i => i) H Hn).
Defined.

(** ** Edge behaviour of the fixed condition *)

(** X11: a column id that is not a discrete column, or a value id that
    fits a signed 32-bit integer and is not below the total number of
    categories, makes [generate_cond_from_condition_column_info] raise
    [IndexError], whatever the batch size.  (The value id is added to an
    [int32] scalar; the bound keeps that addition within the type.) *)
Theorem generate_cond_out_of_range np_log data output_info log_frequency
  s d v batch_size :
  __init__ np_log data output_info log_frequency = Ok s ->
  _n_discrete_columns s <= d \/
  (_n_categories s <= v /\ (Z.of_nat v < 2 ^ 31)%Z) ->
  generate_cond_from_condition_column_info s
    {| discrete_column_id := d; value_id := v |} batch_size
  = Raise IndexError.
Proof.
  intros Hs Hbad. unfold generate_cond_from_condition_column_info. simpl.
  destruct (Nat.lt_ge_cases d (_n_discrete_columns s)) as [Hd|Hd].
  - rewrite (matrix_st_read _ _ _ _ _ _ Hs Hd). simpl. unfold setcol. simpl.
    destruct (Nat.ltb_spec v (_n_categories s)); [lia|done].
  - apply init_inv in Hs as [_ ->]. simpl in *. unfold getitem.
    rewrite lookup_ge_None_2; [done|]. by rewrite length_replicate.
Qed.

Lemma generate_cond_out_of_range_witness :
  __init__ log_unused data_mixed layout_mixed false = Ok sampler_mixed /\
  generate_cond_from_condition_column_info sampler_mixed
    {| discrete_column_id := 2; value_id := 0 |} 4 = Raise IndexError /\
  generate_cond_from_condition_column_info sampler_mixed
    {| discrete_column_id := 0; value_id := 3 |} 0 = Raise IndexError.
Proof.
  assert (__init__ log_unused data_mixed layout_mixed false = Ok sampler_mixed) as Hs
    by reflexivity.
  split; [exact Hs|]. split.
  - apply (generate_cond_out_of_range _ _ _ _ _ 2 0 4 Hs). left. simpl. lia.
  - apply (generate_cond_out_of_range _ _ _ _ _ 0 3 0 Hs). right.
    split; [simpl; lia|reflexivity].
Defined.

(** X12: for an in-range column id the vector does not depend on the column
    at all: two column ids with the same value id give the same result. *)
Theorem generate_cond_ignores_column np_log data output_info log_frequency
  s d1 d2 v batch_size :
  __init__ np_log data output_info log_frequency = Ok s ->
  d1 < _n_discrete_columns s -> d2 < _n_discrete_columns s ->
  generate_cond_from_condition_column_info s
    {| discrete_column_id := d1; value_id := v |} batch_size
  = generate_cond_from_condition_column_info s
      {| discrete_column_id := d2; value_id := v |} batch_size.
Proof.
  intros Hs H1 H2. unfold generate_cond_from_condition_column_info. simpl.
  by rewrite (matrix_st_read _ _ _ _ _ _ Hs H1), (matrix_st_read _ _ _ _ _ _ Hs H2).
Qed.

Lemma generate_cond_ignores_column_witness :
  __init__ log_unused data_mixed layout_mixed false = Ok sampler_mixed /\
  generate_cond_from_condition_column_info sampler_mixed
    {| discrete_column_id := 0; value_id := 0 |} 2
  = generate_cond_from_condition_column_info sampler_mixed
      {| discrete_column_id := 1; value_id := 0 |} 2.
Proof.
  assert (__init__ log_unused data_mixed layout_mixed false = Ok sampler_mixed) as Hs
    by reflexivity.
  split; [exact Hs|].
  apply (generate_cond_ignores_column _ _ _ _ _ 0 1 0 2 Hs); simpl; lia.
Defined.

(** ** Edge behaviour of the categorical draw *)

Lemma mapM_getitem_IndexError {A} (l : list A) ids :
  Exists (fun c => length l <= c) ids ->
  mapM (getitem l) ids = Raise IndexError.
Proof.
  induction ids as [|c ids IH]; [by intros ?%Exists_nil|].
  intros H. simpl. unfold getitem at 1.
  destruct (l !! c) as [x|] eqn:E; simpl; [|done].
  apply Exists_cons in H as [H|H].
  - apply lookup_lt_Some in E. lia.
  - by rewrite IH.
Qed.

(** X13: a column id outside [0, n_discrete_columns) makes
    [_random_choice_prob_index] raise [IndexError]; and on a sampler whose
    discrete columns all have zero categories (or that has no discrete
    column) it raises [ValueError] for in-range ids, the empty batch
    included, the arg-max running over rows of width zero. *)
Theorem random_choice_prob_index_errors np_log data output_info log_frequency
  s ids u :
  __init__ np_log data output_info log_frequency = Ok s ->
  (Exists (fun c => _n_discrete_columns s <= c) ids ->
   _random_choice_prob_index s ids u = Raise IndexError) /\
  (Forall (fun c => c < _n_discrete_columns s) ids ->
   max_list (_discrete_column_n_category s) = 0 ->
   _random_choice_prob_index s ids u = Raise ValueError).
Proof.
  intros [HI1 ->]%init_inv. simpl. split.
  - intros H. unfold _random_choice_prob_index. rewrite mapM_getitem_IndexError; [done|].
    simpl. rewrite length_map.
    by rewrite <- (length_map snd), <- (discrete_dims_spans output_info 0).
  - intros Hids Hmax. unfold _random_choice_prob_index.
    rewrite (mapM_ext_Ok _ (fun c =>
      nth c (rows (_discrete_column_category_prob
                     (sampler_of np_log data output_info log_frequency))) [])).
    + simpl. unfold argmax_axis1. simpl. by rewrite Hmax.
    + eapply Forall_impl; [exact Hids|]. simpl. intros c Hc.
      unfold getitem.
      assert (c < length (map (prob_row_of np_log data log_frequency
                (max_list (discrete_dims output_info)))
                (discrete_spans output_info 0))) as Hlt.
      { rewrite length_map.
        by rewrite <- (length_map snd), <- (discrete_dims_spans output_info 0). }
      apply lookup_lt_is_Some_2 in Hlt as [row Hrow]. rewrite Hrow.
      by rewrite (nth_lookup_Some _ _ _ _ Hrow).
Qed.

Lemma random_choice_prob_index_errors_witness :
  __init__ log_unused data_a [softmax 2] false = Ok sampler_a /\
  _random_choice_prob_index sampler_a [0; 1] (fun _ => 0%Q) = Raise IndexError /\
  __init__ log_unused (mk_ndarray2 0 [[]; []]) [softmax 0] false
  = Ok (sampler_of log_unused (mk_ndarray2 0 [[]; []]) [softmax 0] false) /\
  _random_choice_prob_index
    (sampler_of log_unused (mk_ndarray2 0 [[]; []]) [softmax 0] false)
    [0] (fun _ => 0%Q) = Raise ValueError.
Proof.
  assert (__init__ log_unused data_a [softmax 2] false = Ok sampler_a) as Hs
    by reflexivity.
  assert (__init__ log_unused (mk_ndarray2 0 [[]; []]) [softmax 0] false
          = Ok (sampler_of log_unused (mk_ndarray2 0 [[]; []]) [softmax 0] false))
    as Hz by reflexivity.
  split; [exact Hs|]. split.
  - destruct (random_choice_prob_index_errors _ _ _ _ _ [0; 1] (fun _ => 0%Q) Hs)
      as [H _].
    apply H. apply Exists_cons_tl, Exists_cons_hd. simpl. lia.
  - split; [exact Hz|].
    destruct (random_choice_prob_index_errors _ _ _ _ _ [0] (fun _ => 0%Q) Hz)
      as [_ H].
    apply H; [|reflexivity]. apply Forall_cons. split; [simpl; lia|constructor].
Defined.

(** ** Edge behaviour of the empirical condition *)

(** X14: with at least one discrete column, asking [sample_original_condvec]
    for a non-empty batch over an empty training matrix raises [ValueError]
    (no row can be drawn); an empty batch returns a matrix with no rows. *)
Theorem sample_original_condvec_empty_data (s : DataSampler) batch row_draw col_draw :
  0 < _n_discrete_columns s ->
  rows (_data s) = [] ->
  (0 < batch ->
   sample_original_condvec s batch row_draw col_draw = Raise ValueError) /\
  sample_original_condvec s 0 row_draw col_draw
  = Ok (Some (mk_ndarray2 (_n_categories s) [])).
Proof.
  intros Hn Hempty. unfold sample_original_condvec.
  destruct (Nat.eqb_spec (_n_discrete_columns s) 0) as [?|_]; [lia|].
  split; [|done]. intros Hb. destruct batch as [|b]; [lia|].
  simpl. by rewrite Hempty.
Qed.

Lemma sample_original_condvec_empty_data_witness :
  0 < _n_discrete_columns sampler_empty /\
  rows (_data sampler_empty) = [] /\
  sample_original_condvec sampler_empty 2 (fun i => i) (fun i => i)
  = Raise ValueError.
Proof.
  assert (0 < _n_discrete_columns sampler_empty) as Hn by (simpl; lia).
  assert (rows (_data sampler_empty) = []) as He by reflexivity.
  split; [exact Hn|]. split; [exact He|].
  destruct (sample_original_condvec_empty_data sampler_empty 2 (fun i => i)
              (fun i => i) Hn He) as [H _].
  apply H. lia.
Defined.

(** ** What the random condition returns *)

Lemma sample_condvec_closed np_log data output_info log_frequency b col_draw u :
  total_width output_info = shape1 data ->
  let s := sampler_of np_log data output_info log_frequency in
  let dims := discrete_dims output_info in
  let ids := map (fun i => col_draw i mod length dims) (seq 0 b) in
  let cats := imap (fun i c => choice_of s c (u i)) ids in
  let cid := zip_with Nat.add (map (fun c => nth c (cond_starts 0 dims) 0) ids) cats in
  0 < length dims ->
  Forall (fun d => 1 <= d) dims ->
  sample_condvec s b col_draw u
  = Ok (Some (mk_ndarray2 (sum_list dims)
                (map (fun j => <[j := 1%Q]> (replicate (sum_list dims) 0%Q)) cid),
              mk_ndarray2 (length dims)
                (map (fun j => <[j := 1%Q]> (replicate (length dims) 0%Q)) ids),
              ids, cats)) /\
  forall i c, ids !! i = Some c ->
    exists st d,
      discrete_spans output_info 0 !! c = Some (st, d) /\
      choice_of s c (u i) < d.
Proof.
  intros HI1 s dims ids cats cid Hn Hdims.
  assert (length ids = b) as Hlen by (unfold ids; by rewrite length_map, length_seq).
  assert (Forall (fun c => c < length dims) ids) as Hids.
  { apply Forall_fmap, Forall_forall. intros i _. simpl.
    apply Nat.mod_upper_bound. lia. }
  assert (0 < max_list dims) as Hmax.
  { apply max_list_pos; [|done]. intros E. rewrite E in Hn. simpl in Hn. lia. }
  assert (length cats = b) as Hlcats by (unfold cats; by rewrite length_imap).
  assert (length cid = b) as Hlcid.
  { unfold cid. rewrite length_zip_with, length_map. lia. }
  assert (forall i c, ids !! i = Some c ->
            exists st d, discrete_spans output_info 0 !! c = Some (st, d) /\
              choice_of s c (u i) < d /\
              cid !! i = Some (nth c (cond_starts 0 dims) 0 + choice_of s c (u i)) /\
              nth c (cond_starts 0 dims) 0 + choice_of s c (u i) < sum_list dims)
    as Hrow.
  { intros i c Hi.
    assert (c < length dims) as Hc
      by (rewrite Forall_forall in Hids; by eapply Hids, list_elem_of_lookup_2).
    apply lookup_lt_is_Some_2 in Hc as [d Hd].
    destruct (cond_starts_lookup dims 0 c d Hd) as [Hst Hsum].
    destruct (dims_spans output_info c d Hd) as [st Hsp].
    assert (1 <= d) as Hd1
      by (rewrite Forall_forall in Hdims; by eapply Hdims, list_elem_of_lookup_2).
    pose proof (choice_of_lt np_log data output_info log_frequency HI1 c st d
                  (u i) Hsp Hd1) as Hlt. fold s in Hlt.
    exists st, d. rewrite (nth_lookup_Some _ _ _ _ Hst).
    repeat split; try done; [|simpl; lia].
    unfold cid. apply lookup_zip_with_Some. eexists _, _. split; [done|].
    split; [by rewrite list_lookup_fmap, Hi; simpl;
               rewrite (nth_lookup_Some _ _ _ _ Hst)|].
    unfold cats. by rewrite list_lookup_imap, Hi. }
  split.
  - unfold sample_condvec.
    change (_n_discrete_columns s) with (length dims).
    change (_n_categories s) with (sum_list dims).
    change (_discrete_column_cond_st s) with (cond_starts 0 dims).
    destruct (Nat.eqb_spec (length dims) 0) as [?|_]; [lia|].
    rewrite random_choice_arange_Ok by done. simpl bind. fold ids.
    rewrite <- Hlen at 1.
    rewrite setitem_fancy_zeros by done. simpl bind.
    unfold s at 1. rewrite random_choice_prob_index_Ok by done. fold s. simpl bind.
    rewrite (mapM_ext_Ok _ (fun c => nth c (cond_starts 0 dims) 0)).
    2:{ eapply Forall_impl; [exact Hids|]. simpl. intros c Hc.
        apply lookup_lt_is_Some_2 in Hc as [d Hd].
        destruct (cond_starts_lookup dims 0 c d Hd) as [Hst _].
        unfold getitem. by rewrite Hst, (nth_lookup_Some _ _ _ _ Hst). }
    simpl bind. fold cats. fold cid. rewrite <- Hlcid at 1.
    rewrite setitem_fancy_zeros; [done|].
    apply Forall_forall. intros j [i Hi]%list_elem_of_lookup.
    assert (i < length ids) as Hlt by (rewrite Hlen, <- Hlcid; by eapply lookup_lt_Some).
    apply lookup_lt_is_Some_2 in Hlt as [c Hc].
    destruct (Hrow i c Hc) as (st & d & _ & _ & Hcid & Hb). by simplify_eq.
  - intros i c Hi. destruct (Hrow i c Hi) as (st & d & Hsp & Hlt & _).
    by exists st, d.
Qed.

(** X15: when every discrete column has at least one category, the pairs
    [sample_condvec] returns are valid requests: the column id of batch
    element [i] is the column draw of that element reduced modulo the number
    of discrete columns (so it alone decides the column), and the category
    id is below that column's category count, for every uniform draw and
    whatever the stored probabilities are. *)
Theorem sample_condvec_pairs_valid np_log data output_info log_frequency s
  b col_draw u cond mask ids cats :
  __init__ np_log data output_info log_frequency = Ok s ->
  0 < _n_discrete_columns s ->
  Forall (fun d => 1 <= d) (_discrete_column_n_category s) ->
  sample_condvec s b col_draw u = Ok (Some (cond, mask, ids, cats)) ->
  length ids = b /\ length cats = b /\
  forall i, i < b ->
    exists k d,
      ids !! i = Some (col_draw i mod _n_discrete_columns s) /\
      cats !! i = Some k /\
      _discrete_column_n_category s !! (col_draw i mod _n_discrete_columns s)
      = Some d /\
      k < d.
Proof.
  intros [HI1 ->]%init_inv Hn Hdims.
  destruct (sample_condvec_closed np_log data output_info log_frequency b col_draw u
              HI1 Hn Hdims) as [-> Hvalid].
  intros [= <- <- <- <-]. simpl.
  rewrite length_imap, length_map, length_seq. split; [done|]. split; [done|].
  intros i Hi.
  assert (map (fun i => col_draw i mod length (discrete_dims output_info)) (seq 0 b)
          !! i = Some (col_draw i mod length (discrete_dims output_info))) as Hid
    by (by rewrite list_lookup_fmap, lookup_seq_lt).
  destruct (Hvalid i _ Hid) as (st & d & Hsp & Hlt).
  eexists _, d. split; [exact Hid|]. split.
  - by rewrite list_lookup_imap, Hid.
  - split; [by eapply spans_dims|exact Hlt].
Qed.

Lemma sample_condvec_pairs_valid_witness :
  __init__ log_unused data_mixed layout_mixed false = Ok sampler_mixed /\
  0 < _n_discrete_columns sampler_mixed /\
  Forall (fun d => 1 <= d) (_discrete_column_n_category sampler_mixed) /\
  sample_condvec sampler_mixed 2 (fun i => i + 3) (fun _ => 1 # 2)
  = Ok (Some (mk_ndarray2 3 [[0; 0; 1]; [0; 1; 0]]%Q,
              mk_ndarray2 2 [[0; 1]; [1; 0]]%Q, [1; 0], [0; 1])) /\
  length [1; 0] = 2.
Proof.
  assert (__init__ log_unused data_mixed layout_mixed false = Ok sampler_mixed) as Hs
    by reflexivity.
  assert (0 < _n_discrete_columns sampler_mixed) as Hn by (simpl; lia).
  assert (Forall (fun d => 1 <= d) (_discrete_column_n_category sampler_mixed)) as Hd
    by (repeat constructor).
  assert (sample_condvec sampler_mixed 2 (fun i => i + 3) (fun _ => 1 # 2)
          = Ok (Some (mk_ndarray2 3 [[0; 0; 1]; [0; 1; 0]]%Q,
                      mk_ndarray2 2 [[0; 1]; [1; 0]]%Q, [1; 0], [0; 1]))) as Hr
    by reflexivity.
  split; [exact Hs|]. split; [exact Hn|]. split; [exact Hd|]. split; [exact Hr|].
  exact (proj1 (sample_condvec_pairs_valid _ _ _ _ _ _ _ _ _ _ _ _ Hs Hn Hd Hr)).
Defined.

(** ** The training pairing *)

(** X16: the training pairing is safe when every category has a training
    row.  If every discrete column has at least one category and every
    category of every discrete column is nonzero in at least one training
    row, then for every batch size and all draws [sample_condvec] returns
    column and category ids with which [sample_data] returns, for all its
    own draws, one training row per batch element, each conforming to the
    element's pair.  The category ids are below their column's category
    count whatever the stored probabilities are, so the guarantee does not
    depend on how the probabilities were rounded. *)
Theorem sample_condvec_then_sample_data_covered np_log data output_info
  log_frequency s b col_draw u :
  __init__ np_log data output_info log_frequency = Ok s ->
  0 < _n_discrete_columns s ->
  Forall (fun d => 1 <= d) (_discrete_column_n_category s) ->
  (forall c st d o,
      discrete_spans output_info 0 !! c = Some (st, d) -> o < d ->
      exists k row, rows data !! k = Some row /\ nonzero_at row (st + o)) ->
  exists cond mask ids cats,
    sample_condvec s b col_draw u = Ok (Some (cond, mask, ids, cats)) /\
    forall n draw,
      exists out,
        sample_data s n (Some ids) cats draw = Ok out /\
        length out = b /\
        forall i, i < b ->
          exists c k row,
            ids !! i = Some c /\ cats !! i = Some k /\ out !! i = Some row /\
            conforms output_info s c k row.
Proof.
  intros Hs Hn Hdims Hcov. pose proof Hs as [HI1 Heq]%init_inv.
  rewrite Heq in Hn, Hdims.
  set (dims := discrete_dims output_info).
  destruct (sample_condvec_closed np_log data output_info log_frequency b col_draw u
              HI1 Hn Hdims) as [Hclosed Hvalid].
  rewrite <- Heq in Hclosed, Hvalid. fold dims in Hclosed, Hvalid.
  set (ids := map (fun i => col_draw i mod length dims) (seq 0 b)) in *.
  set (cats := imap (fun i c => choice_of s c (u i)) ids) in *.
  assert (length ids = b) as Hlids by (unfold ids; by rewrite length_map, length_seq).
  assert (length cats = b) as Hlcats by (unfold cats; by rewrite length_imap).
  assert (Forall (servable s) (zip ids cats)) as Hserv.
  { apply Forall_forall. intros [c k] [i Hi]%list_elem_of_lookup.
    apply lookup_zip_with_Some in Hi as (c' & k' & [= <- <-] & Hc & Hk).
    unfold cats in Hk. rewrite list_lookup_imap, Hc in Hk. simpl in Hk.
    injection Hk as <-.
    destruct (Hvalid i c Hc) as (st & d & Hsp & Hlt).
    destruct (rid_lookup_spec np_log data output_info log_frequency c _ st d Hsp Hlt)
      as (rid & Hrid & _ & Hmem).
    rewrite <- Heq in Hrid.
    destruct (Hcov c st d _ Hsp Hlt) as (j & row & Hj & Hnz).
    exists rid. split; [exact Hrid|]. intros ->.
    assert (j ∈ @nil nat) as Hin by (apply Hmem; by exists row).
    by apply elem_of_nil in Hin. }
  eexists _, _, ids, cats. split; [exact Hclosed|].
  intros n draw.
  destruct (proj2 (sample_data_Some_Ok _ _ _ _ _ n ids cats draw Hs) Hserv)
    as [out Hout].
  exists out. split; [exact Hout|].
  destruct (sample_data_Some_inv _ _ _ _ _ _ _ _ _ _ Hs Hout) as [Hl Hrows].
  split; [rewrite Hl, length_zip; lia|].
  intros i Hi.
  assert (i < length ids) as Hi1 by lia.
  assert (i < length cats) as Hi2 by lia.
  apply lookup_lt_is_Some_2 in Hi1 as [c Hc].
  apply lookup_lt_is_Some_2 in Hi2 as [k Hk].
  destruct (Hrows i c k Hc Hk) as (row & Hrow & Hconf).
  by exists c, k, row.
Qed.

Lemma sample_condvec_then_sample_data_covered_witness :
  __init__ log_unused data_mixed layout_mixed false = Ok sampler_mixed /\
  0 < _n_discrete_columns sampler_mixed /\
  Forall (fun d => 1 <= d) (_discrete_column_n_category sampler_mixed) /\
  sample_condvec sampler_mixed 2 (fun i => i + 3) (fun _ => 1 # 2)
  = Ok (Some (mk_ndarray2 3 [[0; 0; 1]; [0; 1; 0]]%Q,
              mk_ndarray2 2 [[0; 1]; [1; 0]]%Q, [1; 0], [0; 1])) /\
  sample_data sampler_mixed 2 (Some [1; 0]) [0; 1] (fun i => i)
  = Ok [[1; 0; 3 # 10; 1; 1]; [0; 1; 0; 1; 1]]%Q /\
  exists cond mask ids cats,
    sample_condvec sampler_mixed 2 (fun i => i + 3) (fun _ => 1 # 2)
    = Ok (Some (cond, mask, ids, cats)) /\
    forall n draw,
      exists out,
        sample_data sampler_mixed n (Some ids) cats draw = Ok out /\
        length out = 2 /\
        forall i, i < 2 ->
          exists c k row,
            ids !! i = Some c /\ cats !! i = Some k /\ out !! i = Some row /\
            conforms layout_mixed sampler_mixed c k row.
Proof.
  assert (__init__ log_unused data_mixed layout_mixed false = Ok sampler_mixed) as Hs
    by reflexivity.
  assert (0 < _n_discrete_columns sampler_mixed) as Hn by (simpl; lia).
  assert (Forall (fun d => 1 <= d) (_discrete_column_n_category sampler_mixed)) as Hd
    by (repeat constructor).
  split; [exact Hs|]. split; [exact Hn|]. split; [exact Hd|].
  split; [reflexivity|]. split; [reflexivity|].
  apply (sample_condvec_then_sample_data_covered _ _ _ _ _ 2 (fun i => i + 3)
           (fun _ => 1 # 2) Hs Hn Hd).
  intros c st d o Hsp Ho.
  destruct c as [|[|c]]; simpl in Hsp; simplify_eq.
  - destruct o as [|[|o]]; [| |lia].
    + exists 0, [1; 0; 3 # 10; 1; 1]%Q. split; [reflexivity|].
      apply nth_nonzero_at. reflexivity.
    + exists 1, [0; 1; -1 # 2; 1; 1]%Q. split; [reflexivity|].
      apply nth_nonzero_at. reflexivity.
  - destruct o as [|o]; [|lia].
    exists 0, [1; 0; 3 # 10; 1; 1]%Q. split; [reflexivity|].
    apply nth_nonzero_at. reflexivity.
Defined.

(** ** General behaviour of the fixed and the empirical condition *)

(** X17: for an in-range column id and a value id below the total number of
    categories, the fixed condition has [batch_size] identical rows of width
    [n_categories], each one-hot at [value_id] itself: the column's offset
    in the conditioning vector is not added. *)
Theorem generate_cond_one_hot_at_value_id np_log data output_info log_frequency
  s d v batch_size :
  __init__ np_log data output_info log_frequency = Ok s ->
  d < _n_discrete_columns s ->
  v < _n_categories s ->
  exists row,
    generate_cond_from_condition_column_info s
      {| discrete_column_id := d; value_id := v |} batch_size
    = Ok (mk_ndarray2 (dim_cond_vec s) (replicate batch_size row)) /\
    one_hot_at (dim_cond_vec s) v row.
Proof. intros Hs Hd Hv. by eapply generate_cond_value_id. Qed.

Lemma generate_cond_one_hot_at_value_id_witness :
  __init__ log_unused data_mixed layout_mixed false = Ok sampler_mixed /\
  1 < _n_discrete_columns sampler_mixed /\
  0 < _n_categories sampler_mixed /\
  _discrete_column_cond_st sampler_mixed !! 1 = Some 2 /\
  exists row,
    generate_cond_from_condition_column_info sampler_mixed
      {| discrete_column_id := 1; value_id := 0 |} 2
    = Ok (mk_ndarray2 (dim_cond_vec sampler_mixed) (replicate 2 row)) /\
    one_hot_at (dim_cond_vec sampler_mixed) 0 row.
Proof.
  assert (__init__ log_unused data_mixed layout_mixed false = Ok sampler_mixed) as Hs
    by reflexivity.
  assert (1 < _n_discrete_columns sampler_mixed) as Hd by (simpl; lia).
  assert (0 < _n_categories sampler_mixed) as Hv by (simpl; lia).
  split; [exact Hs|]. split; [exact Hd|]. split; [exact Hv|].
  split; [reflexivity|].
  exact (generate_cond_one_hot_at_value_id _ _ _ _ _ 1 0 2 Hs Hd Hv).
Defined.

(** X18: on a rectangular training matrix with at least one row and
    discrete columns of at least one category each, [sample_original_condvec]
    returns a [batch] x [n_categories] matrix whose row [i] is one-hot at
    [cond_st[c]] plus the arg-max of the first [n_category[c]] entries of
    the drawn training row [r], where [r] and [c] are the draws of element
    [i] reduced into range: the entries read are matrix columns
    [0 .. n_category[c] - 1] whichever column [c] is. *)
Theorem sample_original_condvec_reads_from_zero np_log data output_info
  log_frequency s batch row_draw col_draw :
  __init__ np_log data output_info log_frequency = Ok s ->
  rectangular data ->
  0 < length (rows data) ->
  0 < _n_discrete_columns s ->
  Forall (fun d => 1 <= d) (_discrete_column_n_category s) ->
  exists cond,
    sample_original_condvec s batch row_draw col_draw = Ok (Some cond) /\
    shape1 cond = dim_cond_vec s /\ length (rows cond) = batch /\
    forall i, i < batch ->
      exists row d st pick crow,
        rows data !! (row_draw i mod length (rows data)) = Some row /\
        _discrete_column_n_category s !! (col_draw i mod _n_discrete_columns s)
        = Some d /\
        _discrete_column_cond_st s !! (col_draw i mod _n_discrete_columns s)
        = Some st /\
        argmax Q_gt (take d row) = Ok pick /\
        rows cond !! i = Some crow /\
        one_hot_at (dim_cond_vec s) (st + pick) crow.
Proof.
  intros Hs Hrect Hrows Hn Hdims.
  destruct (sample_original_condvec_prefix _ _ _ _ _ batch row_draw col_draw
              Hs Hrect Hrows Hn Hdims) as (cond & Heq & Hsh & Hlen & Hall).
  exists cond. split; [done|]. split; [done|]. split; [done|].
  intros i Hi. destruct (Hall i Hi) as (row & d & st & pick & crow & H).
  exists row, d, st, pick, crow. unfold slice in H.
  by rewrite Nat.sub_0_r in H.
Qed.

Lemma sample_original_condvec_reads_from_zero_witness :
  __init__ log_unused data_mixed layout_mixed false = Ok sampler_mixed /\
  rectangular data_mixed /\
  0 < length (rows data_mixed) /\
  0 < _n_discrete_columns sampler_mixed /\
  Forall (fun d => 1 <= d) (_discrete_column_n_category sampler_mixed) /\
  sample_original_condvec sampler_mixed 2 (fun i => i) (fun i => i)
  = Ok (Some (mk_ndarray2 3 [[1; 0; 0]; [0; 0; 1]]%Q)) /\
  exists cond,
    sample_original_condvec sampler_mixed 2 (fun i => i) (fun i => i)
    = Ok (Some cond) /\
    shape1 cond = dim_cond_vec sampler_mixed /\ length (rows cond) = 2.
Proof.
  assert (__init__ log_unused data_mixed layout_mixed false = Ok sampler_mixed) as Hs
    by reflexivity.
  assert (rectangular data_mixed) as Hr by (repeat constructor).
  assert (0 < length (rows data_mixed)) as Hrows by (simpl; lia).
  assert (0 < _n_discrete_columns sampler_mixed) as Hn by (simpl; lia).
  assert (Forall (fun d => 1 <= d) (_discrete_column_n_category sampler_mixed)) as Hd
    by (repeat constructor).
  split; [exact Hs|]. split; [exact Hr|]. split; [exact Hrows|].
  split; [exact Hn|]. split; [exact Hd|]. split; [reflexivity|].
  destruct (sample_original_condvec_reads_from_zero _ _ _ _ _ 2 (fun i => i)
              (fun i => i) Hs Hr Hrows Hn Hd) as (cond & H1 & H2 & H3 & _).
  exists cond. split; [exact H1|]. split; [exact H2|exact H3].
Defined.

(** ** Stored probabilities are empirical frequencies *)

Lemma col_sums_lookup data st d k :
  k < d -> st + d <= shape1 data ->
  col_sums data st (st + d) !! k
  = Some (Qsum (map (fun r => nth (st + k) r 0%Q) (rows data))).
Proof.
  intros Hk Hin. unfold col_sums.
  rewrite list_lookup_fmap, lookup_seq_lt by lia. done.
Qed.

Lemma Qsum_map_plus {A} (f g : A -> Q) l :
  (Qsum (map (fun x => f x + g x) l) == Qsum (map f l) + Qsum (map g l))%Q.
Proof.
  induction l as [|x l IH]; simpl; [by rewrite Qplus_0_r|].
  rewrite IH. rewrite <- !Qplus_assoc. apply Qplus_comp; [reflexivity|].
  rewrite !Qplus_assoc. apply Qplus_comp; [apply Qplus_comm|reflexivity].
Qed.

Lemma Qsum_ext {A} (f g : A -> Q) l :
  (forall x, x ∈ l -> (f x == g x)%Q) ->
  (Qsum (map f l) == Qsum (map g l))%Q.
Proof.
  induction l as [|x l IH]; intros H; simpl; [reflexivity|].
  rewrite (H x) by (by left). rewrite IH; [reflexivity|].
  intros y Hy. apply H. by right.
Qed.

Lemma Qnat_S n : (Qnat (S n) == 1 + Qnat n)%Q.
Proof.
  unfold Qnat. rewrite Nat2Z.inj_succ, <- Z.add_1_l, inject_Z_plus. reflexivity.
Qed.

Lemma Qsum_ones {A} (l : list A) : (Qsum (map (fun _ => 1) l) == Qnat (length l))%Q.
Proof.
  induction l as [|x l IH]; simpl; [reflexivity|]. by rewrite IH, Qnat_S.
Qed.

Lemma Qsum_swap {A B} (a : A -> B -> Q) (R : list A) (J : list B) :
  (Qsum (map (fun j => Qsum (map (fun r => a r j) R)) J)
   == Qsum (map (fun r => Qsum (map (fun j => a r j) J)) R))%Q.
Proof.
  induction J as [|j J IH]; simpl.
  - induction R as [|r R IHR]; simpl; [reflexivity|].
    by rewrite <- IHR, Qplus_0_r.
  - rewrite IH. symmetry.
    apply (Qsum_map_plus (fun r => a r j) (fun r => Qsum (map (fun j => a r j) J))).
Qed.

Lemma Qsum_indicator o d : forall a,
  (Qsum (map (fun j => if j =? o then 1 else 0) (seq a d))
   == if (a <=? o) && (o <? a + d) then 1 else 0)%Q.
Proof.
  induction d as [|d IH]; intros a; simpl.
  - destruct (Nat.leb_spec a o), (Nat.ltb_spec o (a + 0)); simpl; try reflexivity. lia.
  - rewrite IH.
    destruct (Nat.eqb_spec a o), (Nat.leb_spec a o), (Nat.leb_spec (S a) o),
      (Nat.ltb_spec o (a + S d)), (Nat.ltb_spec o (S a + d)); simpl;
      try reflexivity; lia.
Qed.

Lemma length_nonzero_from i j v :
  length (nonzero_from i v) = length (nonzero_from j v).
Proof.
  revert i j; induction v as [|x v IH]; intros i j; simpl; [done|].
  destruct (Qeq_bool x 0); simpl; by rewrite (IH (S i) (S j)).
Qed.

Lemma Qsum_count_nonzero (v : list Q) :
  Forall (fun x => (x == 0)%Q \/ (x == 1)%Q) v ->
  (Qsum v == Qnat (length (np_nonzero v)))%Q.
Proof.
  unfold np_nonzero. induction 1 as [|x v Hx _ IH]; simpl; [reflexivity|].
  destruct (Qeq_bool x 0) eqn:E.
  - apply Qeq_bool_iff in E.
    rewrite (length_nonzero_from 1 0), <- IH, E. apply Qplus_0_l.
  - destruct Hx as [Hx|Hx].
    + apply Qeq_bool_iff in Hx. congruence.
    + simpl. rewrite (length_nonzero_from 1 0), Qnat_S, <- IH, Hx. reflexivity.
Qed.

Lemma one_hot_block_total data st d :
  st + d <= shape1 data ->
  Forall (one_hot_block st d) (rows data) ->
  (Qsum (col_sums data st (st + d)) == Qnat (length (rows data)))%Q.
Proof.
  intros Hin Hrows. unfold col_sums.
  replace (Nat.min (st + d) (shape1 data) - st) with d by lia.
  assert (seq st d = map (fun x => st + x) (seq 0 d)) as ->.
  { pose proof (fmap_add_seq st 0 d) as H. by rewrite Nat.add_0_r in H. }
  rewrite map_map.
  rewrite (Qsum_swap (fun r j => nth (st + j) r 0%Q) (rows data) (seq 0 d)).
  rewrite <- Qsum_ones. apply Qsum_ext. intros row Hrow.
  rewrite Forall_forall in Hrows. destruct (Hrows row Hrow) as (o & Ho & Hone).
  rewrite (Qsum_ext _ (fun j => if j =? o then 1 else 0)%Q).
  - rewrite Qsum_indicator. simpl.
    by destruct (Nat.ltb_spec o d); [|lia].
  - intros j Hj%elem_of_seq. apply Hone. lia.
Qed.

(** X19: without log-frequency smoothing, when the training matrix has a
    row and every row's block in a discrete column is one-hot (a one at one
    category, zeros at the others), the stored probability of a category is
    the share of training rows in its row set: [len(rid) / len(data)]. *)
Theorem category_prob_empirical np_log data output_info s c st d o rid :
  __init__ np_log data output_info false = Ok s ->
  discrete_spans output_info 0 !! c = Some (st, d) ->
  0 < length (rows data) ->
  Forall (one_hot_block st d) (rows data) ->
  rid_lookup s c o = Some rid ->
  exists row q,
    rows (_discrete_column_category_prob s) !! c = Some row /\
    row !! o = Some (Fin q) /\
    (q == Qnat (length rid) / Qnat (length (rows data)))%Q.
Proof.
  intros [HI1 ->]%init_inv Hsp Hrows Hone Hl.
  pose proof (span_in_matrix data output_info HI1 c st d Hsp) as [Hin _].
  assert (o < d) as Ho.
  { destruct (Nat.lt_ge_cases o d) as [?|Hge]; [done|].
    rewrite rid_lookup_None in Hl; [done|]. right. exists d.
    split; [by eapply spans_dims|done]. }
  assert (rid = np_nonzero (map (fun r => nth (st + o) r 0%Q) (rows data))) as ->.
  { unfold rid_lookup in Hl. simpl in Hl.
    rewrite list_lookup_fmap, Hsp in Hl. simpl in Hl. unfold rid_of in Hl.
    simpl in Hl. rewrite list_lookup_fmap, lookup_seq_lt in Hl by done.
    by injection Hl as <-. }
  destruct (prob_row_lookup np_log data output_info false HI1 c st d Hsp)
    as [Hrow Hlen].
  pose proof (one_hot_block_total data st d Hin Hone) as Htot.
  set (T := Qsum (col_sums data st (st + d))) in *.
  set (f := Qsum (map (fun r => nth (st + o) r 0%Q) (rows data))).
  assert (~ (Qnat (length (rows data)) == 0)%Q) as Hn0.
  { unfold Qnat, Qeq. simpl. lia. }
  assert (Qeq_bool T 0 = false) as HT.
  { destruct (Qeq_bool T 0) eqn:E; [|done]. apply Qeq_bool_iff in E.
    rewrite Htot in E. done. }
  eexists _, (f / T)%Q. split; [exact Hrow|]. split.
  - rewrite lookup_app_l by (rewrite Hlen; done).
    unfold category_prob_of. rewrite fl_sum_Fin. fold T.
    rewrite !list_lookup_fmap, (col_sums_lookup data st d o Ho Hin). simpl.
    fold f. by rewrite HT.
  - rewrite Htot. apply Qdiv_comp; [|reflexivity].
    apply Qsum_count_nonzero. apply Forall_fmap, Forall_forall.
    intros row Hr. simpl. rewrite Forall_forall in Hone.
    destruct (Hone row Hr) as (o' & _ & Hall). specialize (Hall o Ho).
    destruct (o =? o'); [by right|by left].
Qed.

Lemma category_prob_empirical_witness :
  __init__ log_unused data_mixed layout_mixed false = Ok sampler_mixed /\
  discrete_spans layout_mixed 0 !! 0 = Some (0, 2) /\
  0 < length (rows data_mixed) /\
  Forall (one_hot_block 0 2) (rows data_mixed) /\
  rid_lookup sampler_mixed 0 1 = Some [1; 2] /\
  exists row q,
    rows (_discrete_column_category_prob sampler_mixed) !! 0 = Some row /\
    row !! 1 = Some (Fin q) /\
    (q == Qnat (length [1; 2]) / Qnat (length (rows data_mixed)))%Q.
Proof.
  assert (__init__ log_unused data_mixed layout_mixed false = Ok sampler_mixed) as Hs
    by reflexivity.
  assert (discrete_spans layout_mixed 0 !! 0 = Some (0, 2)) as Hsp by reflexivity.
  assert (0 < length (rows data_mixed)) as Hrows by (simpl; lia).
  assert (Forall (one_hot_block 0 2) (rows data_mixed)) as Hone.
  { repeat apply Forall_cons_2; [exists 0|exists 1|exists 1|constructor];
      (split; [lia|]); intros [|[|j]] Hj; try reflexivity; lia. }
  assert (rid_lookup sampler_mixed 0 1 = Some [1; 2]) as Hl by reflexivity.
  split; [exact Hs|]. split; [exact Hsp|]. split; [exact Hrows|].
  split; [exact Hone|]. split; [exact Hl|].
  exact (category_prob_empirical _ _ _ _ 0 0 2 1 [1; 2] Hs Hsp Hrows Hone Hl).
Defined.

(** ** Normalised rows of one-hot columns *)

Lemma one_hot_block_frequencies data st d :
  st + d <= shape1 data ->
  Forall (one_hot_block st d) (rows data) ->
  Forall (fun f => (0 <= f)%Q) (col_sums data st (st + d)).
Proof.
  intros Hin Hone. apply Forall_forall. intros f [k Hk]%list_elem_of_lookup.
  assert (k < d) as Hkd.
  { apply lookup_lt_Some in Hk. rewrite length_col_sums in Hk. lia. }
  rewrite (col_sums_lookup data st d k Hkd Hin) in Hk. injection Hk as <-.
  apply Qsum_nonneg, Forall_fmap, Forall_forall. intros row Hr. simpl.
  rewrite Forall_forall in Hone. destruct (Hone row Hr) as (o & _ & Hall).
  rewrite (Hall k Hkd). destruct (k =? o); discriminate.
Qed.

(** C7, as amended: for a training matrix with at least one row and a
    discrete column whose block is one-hot in every training row, the
    stored row is, in exact arithmetic, the normalised frequency vector (of
    [ln(f + 1)] under log-frequency smoothing, of [f] otherwise) followed by
    zeros: it sums to 1 over the true category range, has no negative entry,
    and is 0 beyond the category count.  The frequencies are then row
    counts with total [len(data)]; the entries the code stores are the
    binary64 roundings of these quotients, whose sum is 1 within
    floating-point tolerance. *)
Theorem category_prob_normalised_one_hot np_log data output_info log_frequency
  s c st d :
  __init__ np_log data output_info log_frequency = Ok s ->
  discrete_spans output_info 0 !! c = Some (st, d) ->
  0 < length (rows data) ->
  Forall (one_hot_block st d) (rows data) ->
  (log_frequency = true ->
   forall q, (1 <= q)%Q ->
     exists l, np_log q = Fin l /\ (0 <= l)%Q /\ ((1 < q)%Q -> (0 < l)%Q)) ->
  exists row,
    rows (_discrete_column_category_prob s) !! c = Some row /\
    _discrete_column_n_category s !! c = Some d /\
    length row = shape1 (_discrete_column_category_prob s) /\
    take d row
    = (let freq := col_sums data st (st + d) in
       let g := if log_frequency then map (fun f => np_log (f + 1)%Q) freq
                else map Fin freq in
       map (fun x => fl_div x (fl_sum g)) g) /\
    fl_eq (fl_sum (take d row)) (Fin 1) /\
    Forall fl_nonneg row /\
    forall j, d <= j -> j < shape1 (_discrete_column_category_prob s) ->
              row !! j = Some (Fin 0).
Proof.
  intros Hs Hsp Hrows Hone Hlog.
  pose proof Hs as [HI1 _]%init_inv.
  pose proof (span_in_matrix data output_info HI1 c st d Hsp) as [Hin _].
  apply (normalised_row_exact np_log data output_info log_frequency s c st d
           Hs Hsp); [by apply one_hot_block_frequencies| |exact Hlog].
  rewrite (one_hot_block_total data st d Hin Hone).
  unfold Qnat, Qlt. simpl. lia.
Qed.

Lemma category_prob_normalised_one_hot_witness :
  (__init__ log_unused data_mixed layout_mixed false = Ok sampler_mixed /\
   discrete_spans layout_mixed 0 !! 0 = Some (0, 2) /\
   0 < length (rows data_mixed) /\
   Forall (one_hot_block 0 2) (rows data_mixed) /\
   rows (_discrete_column_category_prob sampler_mixed) !! 0
   = Some [Fin (1 # 3); Fin (2 # 3)] /\
   exists row,
     rows (_discrete_column_category_prob sampler_mixed) !! 0 = Some row /\
     _discrete_column_n_category sampler_mixed !! 0 = Some 2 /\
     length row = shape1 (_discrete_column_category_prob sampler_mixed) /\
     take 2 row
     = (let freq := col_sums data_mixed 0 (0 + 2) in
        let g := map Fin freq in
        map (fun x => fl_div x (fl_sum g)) g) /\
     fl_eq (fl_sum (take 2 row)) (Fin 1) /\
     Forall fl_nonneg row /\
     forall j, 2 <= j -> j < shape1 (_discrete_column_category_prob sampler_mixed) ->
               row !! j = Some (Fin 0)) /\
  (__init__ log_tangent data_a [softmax 2] true = Ok sampler_a_log /\
   discrete_spans [softmax 2] 0 !! 0 = Some (0, 2) /\
   0 < length (rows data_a) /\
   Forall (one_hot_block 0 2) (rows data_a) /\
   exists row,
     rows (_discrete_column_category_prob sampler_a_log) !! 0 = Some row /\
     _discrete_column_n_category sampler_a_log !! 0 = Some 2 /\
     length row = shape1 (_discrete_column_category_prob sampler_a_log) /\
     take 2 row
     = (let freq := col_sums data_a 0 (0 + 2) in
        let g := map (fun f => log_tangent (f + 1)%Q) freq in
        map (fun x => fl_div x (fl_sum g)) g) /\
     fl_eq (fl_sum (take 2 row)) (Fin 1) /\
     Forall fl_nonneg row /\
     forall j, 2 <= j -> j < shape1 (_discrete_column_category_prob sampler_a_log) ->
               row !! j = Some (Fin 0)).
Proof.
  assert (__init__ log_unused data_mixed layout_mixed false = Ok sampler_mixed) as Hs
    by reflexivity.
  assert (__init__ log_tangent data_a [softmax 2] true = Ok sampler_a_log) as Hl
    by reflexivity.
  assert (discrete_spans layout_mixed 0 !! 0 = Some (0, 2)) as Hsp by reflexivity.
  assert (discrete_spans [softmax 2] 0 !! 0 = Some (0, 2)) as Hsp' by reflexivity.
  assert (0 < length (rows data_mixed)) as Hrows by (simpl; lia).
  assert (0 < length (rows data_a)) as Hrows' by (simpl; lia).
  assert (Forall (one_hot_block 0 2) (rows data_mixed)) as Hone.
  { repeat apply Forall_cons_2; [exists 0|exists 1|exists 1|constructor];
      (split; [lia|]); intros [|[|j]] Hj; try reflexivity; lia. }
  assert (Forall (one_hot_block 0 2) (rows data_a)) as Hone'.
  { repeat apply Forall_cons_2; [exists 0|exists 1|exists 0|exists 1|constructor];
      (split; [lia|]); intros [|[|j]] Hj; try reflexivity; lia. }
  split.
  - split; [exact Hs|]. split; [exact Hsp|]. split; [exact Hrows|].
    split; [exact Hone|]. split; [reflexivity|].
    apply (category_prob_normalised_one_hot _ _ _ _ _ 0 0 2 Hs Hsp Hrows Hone).
    discriminate.
  - split; [exact Hl|]. split; [exact Hsp'|]. split; [exact Hrows'|].
    split; [exact Hone'|].
    apply (category_prob_normalised_one_hot _ _ _ _ _ 0 0 2 Hl Hsp' Hrows' Hone').
    intros _. exact log_tangent_sign.
Defined.
